(** * token-presale-backend: purchase ingestion and referral settlement

    A shallow embedding of [server.js] and [models/User.js].

    - JavaScript numbers are IEEE binary64 values: Rocq's primitive [float],
      whose [+], [*] and [/] are the operations the JavaScript engine runs.
    - The two MongoDB collections are lists of documents, in insertion
      order.  A document's [_id] is its position in the list (nothing is
      ever deleted by the server).
    - Handlers are written in a state-and-exception monad over the stores;
      a thrown exception leaves the writes made before it in place.
    - The [$sum] of the aggregation pipeline runs inside the database: it is
      a parameter of the surroundings, and statements about totals are made
      on whole numbers, in [Z].
    - Every [await] on a store operation is a point at which another request
      may run: the [/purchase] handler is also given as a task that advances
      one store operation at a time, so that several requests can be
      interleaved. *)

From Stdlib Require Import Floats ZArith.
From Stdlib Require Import List String Bool Arith Lia.
From Stdlib Require Import DecimalString.
From Stdlib Require Import Sorted Permutation.
Import ListNotations.

Set Warnings "-inexact-float".
Set Implicit Arguments.

Local Open Scope string_scope.
Local Open Scope list_scope.

(* ------------------------------------------------------------------------- *)
(** ** JavaScript values *)

Module JS.

(** A request field is [None] when the JSON body omits it or sends
    [null]; a present field carries the type its schema declares. *)

(** [!x] on a number: [0], [-0] and [NaN] are falsy. *)
Definition falsy_num (x : float) : bool := (x =? 0)%float || is_nan x.

(** [!s] on a string: only the empty string is falsy. *)
Definition falsy_str (s : string) : bool := s =? "".

(** The truthy content of an optional field, [None] when [!v] holds. *)
Definition truthy_num (v : option float) : option float :=
  match v with
  | Some x => if falsy_num x then None else Some x
  | None => None
  end.

Definition truthy_str (v : option string) : option string :=
  match v with
  | Some s => if falsy_str s then None else Some s
  | None => None
  end.

(** [parseFloat(v)] on a number or [undefined]: the argument is first
    turned into its decimal text and read back, which returns the number
    itself, except that [-0] prints as ["0"]; [undefined] reads as [NaN]. *)
Definition parseFloat (v : option float) : float :=
  match v with
  | Some x => if (x =? 0)%float then 0%float else x
  | None => nan
  end.

(** [v || d] on strings. *)
Definition or_str (v : option string) (d : string) : string :=
  match truthy_str v with
  | Some s => s
  | None => d
  end.

(** [a === b] on values that are a string or [undefined]. *)
Definition strict_eq (a b : option string) : bool :=
  match a, b with
  | Some x, Some y => x =? y
  | None, None => true
  | _, _ => false
  end.

(** The decimal text of a natural number, as string concatenation
    ["REF" + n] prints it. *)
Definition of_nat (n : nat) : string :=
  NilEmpty.string_of_uint (Nat.to_uint n).

End JS.

(* ------------------------------------------------------------------------- *)
(** ** Documents and stores *)

(** [purchaseSchema]; the [timestamp] field, which no handler reads, is left
    out. *)
Module Purchase.
Record doc : Type := Build {
  walletAddress : option string;
  usdSpent : float;
  tokensReceived : float;
  transactionId : string;
  referralCodeUsed : option string
}.
End Purchase.

(** [userSchema] of [models/User.js]. *)
Module User.
Record doc : Type := Build {
  walletAddress : string;
  referralCode : option string;
  referralEarnings : float
}.

Definition set_referralEarnings (u : doc) (x : float) : doc :=
  Build (walletAddress u) (referralCode u) x.
End User.

(** The state a request runs against: the two collections, and the list of
    signatures for which [getTransaction] has been called so far, latest
    last. *)
Record world : Type := World {
  purchases : list Purchase.doc;
  users : list User.doc;
  rpc_log : list string
}.

Definition empty_world : world := World [] [] [].

(** What a request sees of its surroundings: the process environment, the
    ledger node, which strings [new PublicKey(s)] accepts, and the
    database's [$sum] accumulator.  The accumulator runs inside the
    database, on the numbers of a group in document order; how it rounds is
    the database's business, so it is taken as it comes. *)
Inductive rpc_reply : Type :=
| RpcFail                                  (* the call rejects: node unreachable, timeout *)
| RpcNull                                  (* no transaction under this signature *)
| RpcTx (accountKeys : list string).       (* transaction.message.accountKeys *)

Record env : Type := Env {
  PRESALE_WALLET : option string;
  getTransaction : string -> rpc_reply;
  valid_key : string -> bool;
  db_sum : list float -> float
}.

(* ------------------------------------------------------------------------- *)
(** ** The handler monad *)

Inductive exn : Type :=
| TypeError
| RpcError
| InvalidPublicKey
| ValidationError
| DuplicateKey.

Inductive completion (A : Type) : Type :=
| Normal (a : A)
| Throw (e : exn).
Arguments Normal {A} a.
Arguments Throw {A} e.

Definition M (A : Type) : Type := world -> completion A * world.

Definition ret {A} (a : A) : M A := fun w => (Normal a, w).

Definition bind {A B} (m : M A) (k : A -> M B) : M B :=
  fun w =>
    match m w with
    | (Normal a, w') => k a w'
    | (Throw e, w') => (Throw e, w')
    end.

Definition throw {A} (e : exn) : M A := fun w => (Throw e, w).

(** [try { m } catch (err) { h err }] *)
Definition try_catch {A} (m : M A) (h : exn -> M A) : M A :=
  fun w =>
    match m w with
    | (Normal a, w') => (Normal a, w')
    | (Throw e, w') => h e w'
    end.

(** The stores as they are now. *)
Definition get : M world := fun w => (Normal w, w).

Declare Scope handler_scope.
Delimit Scope handler_scope with handler.
Notation "x <- c ;; k" := (bind c (fun x => k))
  (at level 61, c at next level, right associativity) : handler_scope.
Notation "c ;;; k" := (bind c (fun _ => k))
  (at level 61, right associativity) : handler_scope.
Local Open Scope handler_scope.

(* ------------------------------------------------------------------------- *)
(** ** Store operations (Mongoose) *)

(** The first element satisfying [f], with its position. *)
Fixpoint find_from {A} (f : A -> bool) (i : nat) (l : list A) : option (nat * A) :=
  match l with
  | [] => None
  | x :: l' => if f x then Some (i, x) else find_from f (S i) l'
  end.

Definition find_indexed {A} (f : A -> bool) (l : list A) : option (nat * A) :=
  find_from f 0 l.

(** Apply [f] to the element at position [i]; out of range changes nothing
    (an update whose [_id] matches no document). *)
Fixpoint update_at {A} (i : nat) (f : A -> A) (l : list A) : list A :=
  match l, i with
  | [], _ => []
  | x :: l', O => f x :: l'
  | x :: l', S j => x :: update_at j f l'
  end.

(** [Purchase.findOne({ transactionId })] *)
Definition Purchase_findOne (transactionId : string) : M (option Purchase.doc) :=
  fun w =>
    (Normal (find (fun p => Purchase.transactionId p =? transactionId) (purchases w)), w).

(** [new Purchase(p).save()].  The schema declares no index on
    [transactionId], so the insert is unconditional; the only check is the
    schema's Number cast, which refuses [NaN]. *)
Definition Purchase_save (p : Purchase.doc) : M unit :=
  fun w =>
    if is_nan (Purchase.usdSpent p) || is_nan (Purchase.tokensReceived p)
    then (Throw ValidationError, w)
    else (Normal tt, World (purchases w ++ [p]) (users w) (rpc_log w)).

(** [l.reduce((sum, x) => sum + x, 0)] *)
Definition sum_floats (l : list float) : float :=
  fold_left (fun acc x => (acc + x)%float) l 0%float.

(** [Purchase.aggregate([{ $group: { _id: null, totalUSD: { $sum: "$usdSpent" } } }])]:
    one group when the collection has documents, none when it is empty. *)
Definition Purchase_aggregate_totalUSD (e : env) : M (list float) :=
  fun w =>
    match purchases w with
    | [] => (Normal [], w)
    | ps => (Normal [db_sum e (map Purchase.usdSpent ps)], w)
    end.

(** [Purchase.find({ walletAddress })] *)
Definition Purchase_find (walletAddress : string) : M (list Purchase.doc) :=
  fun w =>
    (Normal (filter (fun p => JS.strict_eq (Purchase.walletAddress p) (Some walletAddress))
                    (purchases w)), w).

(** [User.findOne({ walletAddress })]: the document and its [_id]. *)
Definition User_findOne_walletAddress (walletAddress : string) : M (option (nat * User.doc)) :=
  fun w =>
    (Normal (find_indexed (fun u => User.walletAddress u =? walletAddress) (users w)), w).

(** [User.findOne({ referralCode })] *)
Definition User_findOne_referralCode (referralCode : string) : M (option (nat * User.doc)) :=
  fun w =>
    (Normal (find_indexed (fun u => JS.strict_eq (User.referralCode u) (Some referralCode))
                          (users w)), w).

(** [save()] on a new user: [walletAddress] and [referralCode] are
    [unique: true], so the insert fails when either is already taken. *)
Definition User_save_new (u : User.doc) : M unit :=
  fun w =>
    if is_nan (User.referralEarnings u) then (Throw ValidationError, w)
    else if existsb (fun v => User.walletAddress v =? User.walletAddress u) (users w)
    then (Throw DuplicateKey, w)
    else if match User.referralCode u with
            | Some c => existsb (fun v => JS.strict_eq (User.referralCode v) (Some c)) (users w)
            | None => false
            end
    then (Throw DuplicateKey, w)
    else (Normal tt, World (purchases w) (users w ++ [u]) (rpc_log w)).

(** [save()] on a user that was read with [findOne] and whose
    [referralEarnings] was then assigned: the stored document with that
    [_id] gets the assigned value ([$set]), whatever it holds by now. *)
Definition User_save_referralEarnings (id : nat) (u : User.doc) : M unit :=
  fun w =>
    if is_nan (User.referralEarnings u) then (Throw ValidationError, w)
    else (Normal tt,
          World (purchases w)
                (update_at id (fun v => User.set_referralEarnings v (User.referralEarnings u))
                           (users w))
                (rpc_log w)).

(* ------------------------------------------------------------------------- *)
(** ** HTTP responses *)

Inductive json : Type :=
| JError (error : string)
| JMessage (message : string)
| JTotalUSD (totalUSD : float)
| JUser (walletAddress : string) (referralCode : option string) (referralEarnings : float)
| JUserPurchases (totalInvested totalTokens : float)
| JLeaderboard (leaderboard : list User.doc).

Record response : Type := Response { status : nat; body : json }.

(** [res.json(j)] answers with status 200. *)
Definition res_json (j : json) : response := Response 200 j.

Definition msg_recorded : string := "✅ Purchase recorded successfully".

(** The outcomes of [recordPurchase], as the HTTP answers that carry them. *)
Definition Recorded : response := res_json (JMessage msg_recorded).
Definition Rejected_missing : response := Response 400 (JError "Missing data").
Definition Rejected_invalid : response := Response 400 (JError "Invalid or fake transaction.").
Definition Rejected_unable : response := Response 400 (JError "Unable to validate transaction.").
Definition Duplicate : response := Response 400 (JError "Duplicate transaction detected").

(* ------------------------------------------------------------------------- *)
(** ** The chain verifier *)

(** [solanaConnection.getTransaction(sig, ...)]: the call is recorded, and
    rejects when the node cannot be reached. *)
Definition rpc_getTransaction (e : env) (txSignature : string) : M (option (list string)) :=
  fun w =>
    let w' := World (purchases w) (users w) (rpc_log w ++ [txSignature]) in
    match getTransaction e txSignature with
    | RpcFail => (Throw RpcError, w')
    | RpcNull => (Normal None, w')
    | RpcTx accountKeys => (Normal (Some accountKeys), w')
    end.

(** [new PublicKey(s)] throws on text that is not a key; two keys are
    [equals] when their texts are. *)
Definition new_PublicKey (e : env) (s : string) : M string :=
  if valid_key e s then ret s else throw InvalidPublicKey.

Definition default_presale_wallet : string :=
  "4qdqnmNxUTjKTJMhVztPxtgwVuU7p2aoJMCJVFEQ6Wzw".

Definition validateSignatureOnChain (e : env)
    (txSignature fromWallet : string) (expectedUsdSpent : float) : M bool :=
  try_catch
    (txInfo <- rpc_getTransaction e txSignature ;;
     match txInfo with
     | None => ret false
     | Some accountKeys =>
         fromPubKey <- new_PublicKey e fromWallet ;;
         match accountKeys with
         | [] => throw TypeError           (* accountKeys[0] is undefined *)
         | key0 :: _ =>
             if negb (key0 =? fromPubKey) then ret false
             else
               let presaleWalletKey := JS.or_str (PRESALE_WALLET e) default_presale_wallet in
               presaleWallet <- new_PublicKey e presaleWalletKey ;;
               let hasPresaleWallet := find (fun k => k =? presaleWallet) accountKeys in
               match hasPresaleWallet with
               | None => ret false
               | Some _ => ret true
               end
         end
     end)
    (fun _ => ret false).

(* ------------------------------------------------------------------------- *)
(** ** Request bodies *)

(** The body of [POST /purchase]. *)
Module Req.
Record body : Type := Build {
  walletAddress : option string;
  usdSpent : option float;
  tokensReceived : option float;
  transactionId : option string;
  referralCode : option string
}.
End Req.

(** The transaction envelopes of [POST /webhook/solana-inbound]. *)
Module Hook.
Record info : Type := Info {
  destination : option string;
  amount : option float
}.

(** [parsed_info] is [None] when [inst.parsed && inst.parsed.info] is
    falsy. *)
Record instruction : Type := Instruction {
  parsed_info : option info
}.

Record tx : Type := Tx {
  signature : string;
  instructions : option (list instruction);
  signers : option (list string)
}.
End Hook.

(* ------------------------------------------------------------------------- *)
(** ** Handlers *)

(** 4) [GET /raised-amount] *)
Definition get_raised_amount (e : env) : M response :=
  try_catch
    (totalRaised <- Purchase_aggregate_totalUSD e ;;
     let sum := match totalRaised with
                | g :: _ => g
                | [] => 0%float
                end in
     ret (res_json (JTotalUSD sum)))
    (fun _ => ret (Response 500 (JError "Failed to fetch raised amount"))).

(** 5) [GET /user/:walletAddress]; [random] is the integer
    [Math.floor(Math.random() * 100000)] drawn by this request. *)
Definition get_user (walletAddress : string) (random : nat) : M response :=
  try_catch
    (found <- User_findOne_walletAddress walletAddress ;;
     user <- match found with
             | Some (_, u) => ret u
             | None =>
                 let randomCode := ("REF" ++ JS.of_nat random)%string in
                 let u := User.Build walletAddress (Some randomCode) 0%float in
                 User_save_new u ;;; ret u
             end ;;
     ret (res_json (JUser (User.walletAddress user)
                          (JS.truthy_str (User.referralCode user))
                          (if JS.falsy_num (User.referralEarnings user) then 0%float
                           else User.referralEarnings user))))
    (fun _ => ret (Response 500 (JError "Failed to get user info"))).

(** 6) [POST /purchase] *)
Definition post_purchase (e : env) (req : Req.body) : M response :=
  (* Basic checks: !walletAddress || !usdSpent || !tokensReceived || !transactionId *)
  match JS.truthy_str (Req.walletAddress req), JS.truthy_num (Req.usdSpent req),
        JS.truthy_num (Req.tokensReceived req), JS.truthy_str (Req.transactionId req) with
  | Some walletAddress, Some usdSpent, Some tokensReceived, Some transactionId =>
      let referralCode := Req.referralCode req in
      (* Validate transaction *)
      failed <- try_catch
                  (isValid <- validateSignatureOnChain e transactionId walletAddress usdSpent ;;
                   if negb isValid then ret (Some Rejected_invalid) else ret None)
                  (fun _ => ret (Some Rejected_unable)) ;;
      match failed with
      | Some r => ret r
      | None =>
          (* Prevent duplicates *)
          existingTx <- Purchase_findOne transactionId ;;
          match existingTx with
          | Some _ => ret Duplicate
          | None =>
              (* Save new purchase *)
              Purchase_save (Purchase.Build (Some walletAddress) usdSpent tokensReceived
                                            transactionId (JS.truthy_str referralCode)) ;;;
              (* If there's a referralCode => 5% bonus *)
              match JS.truthy_str referralCode with
              | Some code =>
                  refUser <- User_findOne_referralCode code ;;
                  match refUser with
                  | Some (id, u) =>
                      let bonus := (0.05 * JS.parseFloat (Some usdSpent))%float in
                      let u' := User.set_referralEarnings
                                  u (User.referralEarnings u + bonus)%float in
                      User_save_referralEarnings id u' ;;;
                      ret Recorded
                  | None => ret Recorded
                  end
              | None => ret Recorded
              end
          end
      end
  | _, _, _, _ => ret Rejected_missing
  end.

(** 7) [GET /user-purchases/:walletAddress] *)
Definition get_user_purchases (walletAddress : string) : M response :=
  try_catch
    (ps <- Purchase_find walletAddress ;;
     let totalInvested := sum_floats (map Purchase.usdSpent ps) in
     let totalTokens := sum_floats (map Purchase.tokensReceived ps) in
     ret (res_json (JUserPurchases totalInvested totalTokens)))
    (fun _ => ret (Response 500 (JError "Failed to fetch user purchases"))).

(** [sort({ referralEarnings: -1 })]: insertion keeps documents of equal
    earnings in store order. *)
Fixpoint insert_desc (u : User.doc) (l : list User.doc) : list User.doc :=
  match l with
  | [] => [u]
  | v :: l' =>
      if (User.referralEarnings v <? User.referralEarnings u)%float
      then u :: v :: l'
      else v :: insert_desc u l'
  end.

Definition sort_desc (l : list User.doc) : list User.doc :=
  fold_left (fun acc u => insert_desc u acc) l [].

(** 8) [GET /leaderboard] *)
Definition get_leaderboard : M response :=
  try_catch
    (w <- get ;;
     let topUsers := firstn 1000 (sort_desc (users w)) in
     ret (res_json (JLeaderboard topUsers)))
    (fun _ => ret (Response 500 (JError "Failed to load leaderboard"))).

(** [for (let x of l) { f x }] *)
Fixpoint for_of {A} (l : list A) (f : A -> M unit) : M unit :=
  match l with
  | [] => ret tt
  | x :: l' => f x ;;; for_of l' f
  end.

(** The body of the inner loop of the webhook, for one instruction of
    [tx]. *)
Definition webhook_instruction (e : env) (tx : Hook.tx) (inst : Hook.instruction) : M unit :=
  let transactionId := Hook.signature tx in
  match Hook.parsed_info inst with
  | Some info =>
      if JS.strict_eq (Hook.destination info) (PRESALE_WALLET e) then
        walletAddress <- match Hook.signers tx with
                         | Some l => ret (nth_error l 0)
                         | None => throw TypeError       (* tx.signers is undefined *)
                         end ;;
        let usdSpent := (JS.parseFloat (Hook.amount info) / 1e6)%float in
        let tokensReceived := (usdSpent / 0.00851)%float in
        (* duplicates check *)
        existingTx <- Purchase_findOne transactionId ;;
        match existingTx with
        | None =>
            Purchase_save (Purchase.Build walletAddress usdSpent tokensReceived
                                          transactionId None)
        | Some _ => ret tt
        end
      else ret tt
  | None => ret tt
  end.

Definition webhook_tx (e : env) (tx : Hook.tx) : M unit :=
  let instructions := match Hook.instructions tx with
                      | Some l => l
                      | None => []
                      end in
  for_of instructions (webhook_instruction e tx).

Definition Webhook_processed : response := Response 200 (JMessage "Webhook processed").
Definition Webhook_failed : response := Response 500 (JError "Internal Server Error").

(** 9) [POST /webhook/solana-inbound] *)
Definition post_webhook (e : env) (transactions : list Hook.tx) : M response :=
  try_catch
    (for_of transactions (webhook_tx e) ;;;
     ret Webhook_processed)
    (fun _ => ret Webhook_failed).

(** An async Express handler: when it throws past its own [catch], the
    request is never answered. *)
Definition handle (m : M response) (w : world) : option response * world :=
  match m w with
  | (Normal r, w') => (Some r, w')
  | (Throw _, w') => (None, w')
  end.

Inductive request : Type :=
| GET_raised_amount
| GET_user (walletAddress : string) (random : nat)
| POST_purchase (req : Req.body)
| GET_user_purchases (walletAddress : string)
| GET_leaderboard
| POST_webhook (transactions : list Hook.tx).

Definition serve (e : env) (r : request) : world -> option response * world :=
  match r with
  | GET_raised_amount => handle (get_raised_amount e)
  | GET_user walletAddress random => handle (get_user walletAddress random)
  | POST_purchase req => handle (post_purchase e req)
  | GET_user_purchases walletAddress => handle (get_user_purchases walletAddress)
  | GET_leaderboard => handle get_leaderboard
  | POST_webhook transactions => handle (post_webhook e transactions)
  end.

(** Requests served one after the other, each under the surroundings it
    meets. *)
Fixpoint serve_all (rs : list (env * request)) (w : world) : list (option response) * world :=
  match rs with
  | [] => ([], w)
  | (e, r) :: rs' =>
      let (a, w1) := serve e r w in
      let (answers, w2) := serve_all rs' w1 in
      (a :: answers, w2)
  end.

(* ------------------------------------------------------------------------- *)
(** ** Profiles: the server with display names and avatars

    The later [models/User.js] adds [displayName] and [avatarUrl] (both
    defaulting to [""]) to the account, and the later [server.js] adds
    [POST /update-profile] and [POST /upload-avatar] and reports both fields
    in [GET /user].  The account of the first schema is kept as a field. *)

Module Profile.

Record doc : Type := Build {
  account : User.doc;
  displayName : string;
  avatarUrl : string
}.

Definition set_displayName (p : doc) (s : string) : doc :=
  Build (account p) s (avatarUrl p).

Definition set_avatarUrl (p : doc) (s : string) : doc :=
  Build (account p) (displayName p) s.

(** [new User({ walletAddress, referralCode, referralEarnings: 0 })] *)
Definition fresh (walletAddress : string) (random : nat) : doc :=
  Build (User.Build walletAddress (Some ("REF" ++ JS.of_nat random)%string) 0%float) "" "".

(** What the profile endpoints answer. *)
Inductive json : Type :=
| JError (error : string)
| JMessage (message : string)
| JAvatar (message : string) (avatarUrl : string)
| JUser (walletAddress : string) (referralCode : option string) (referralEarnings : float)
        (avatarUrl : string) (displayName : string).

Record response : Type := Response { status : nat; body : json }.

Definition res_json (j : json) : response := Response 200 j.

(** [User.findOne({ walletAddress })] *)
Definition findOne (walletAddress : string) (db : list doc) : option (nat * doc) :=
  find_indexed (fun p => User.walletAddress (account p) =? walletAddress) db.

(** [save()] on a new document, under the unique indexes on
    [walletAddress] and [referralCode]. *)
Definition save_new (p : doc) (db : list doc) : completion unit * list doc :=
  if is_nan (User.referralEarnings (account p)) then (Throw ValidationError, db)
  else if existsb (fun q => User.walletAddress (account q) =? User.walletAddress (account p)) db
  then (Throw DuplicateKey, db)
  else if match User.referralCode (account p) with
          | Some c => existsb (fun q => JS.strict_eq (User.referralCode (account q)) (Some c)) db
          | None => false
          end
  then (Throw DuplicateKey, db)
  else (Normal tt, db ++ [p]).

Definition defaultAvatar : string := "/images/avatarmain.png".

(** [GET /user/:walletAddress] of the later server. *)
Definition get_user (walletAddress : string) (random : nat) (db : list doc)
    : response * list doc :=
  let answer (user : doc) :=
    res_json (JUser (User.walletAddress (account user))
                    (JS.truthy_str (User.referralCode (account user)))
                    (if JS.falsy_num (User.referralEarnings (account user)) then 0%float
                     else User.referralEarnings (account user))
                    (JS.or_str (Some (avatarUrl user)) defaultAvatar)
                    (JS.or_str (Some (displayName user)) "")) in
  match findOne walletAddress db with
  | Some (_, user) => (answer user, db)
  | None =>
      let user := fresh walletAddress random in
      match save_new user db with
      | (Normal _, db') => (answer user, db')
      | (Throw _, db') => (Response 500 (JError "Failed to get user info"), db')
      end
  end.

Section WithTrim.

(** [String.prototype.trim] *)
Variable trim : string -> string.

(** [POST /update-profile]; [displayName] is [None] unless the body
    carries a string under that name. *)
Definition post_update_profile (walletAddress displayName : option string) (random : nat)
    (db : list doc) : response * list doc :=
  match JS.truthy_str walletAddress with
  | None => (Response 400 (JError "Missing walletAddress"), db)
  | Some walletAddress =>
      let rename (user : doc) :=
        match displayName with
        | Some s => set_displayName user (trim s)
        | None => user
        end in
      match findOne walletAddress db with
      | Some (id, user) =>
          (res_json (JMessage "Profile updated"),
           update_at id (fun stored => set_displayName stored (Profile.displayName (rename user)))
                     db)
      | None =>
          match save_new (rename (fresh walletAddress random)) db with
          | (Normal _, db') => (res_json (JMessage "Profile updated"), db')
          | (Throw _, db') => (Response 500 (JError "Failed to update profile"), db')
          end
      end
  end.

End WithTrim.

(** What [upload.single("avatar")] hands to the handler: an error with its
    code and message, or the request with the uploaded file's URL, if a
    file came. *)
Inductive uploaded : Type :=
| UploadError (code : option string) (message : string)
| UploadDone (file_path : option string).

(** [POST /upload-avatar] *)
Definition post_upload_avatar (up : uploaded) (walletAddress : option string)
    (db : list doc) : response * list doc :=
  match up with
  | UploadError code message =>
      if JS.strict_eq code (Some "LIMIT_FILE_SIZE")
      then (Response 400 (JError "File size too large. Please resize your image to under 500KB."),
            db)
      else (Response 400 (JError message), db)
  | UploadDone file =>
      match file, JS.truthy_str walletAddress with
      | Some finalUrl, Some walletAddress =>
          match findOne walletAddress db with
          | None => (Response 404 (JError "User not found"), db)
          | Some (id, user) =>
              (res_json (JAvatar "Avatar uploaded successfully" finalUrl),
               update_at id (fun stored => set_avatarUrl stored finalUrl) db)
          end
      | _, _ => (Response 400 (JError "Missing wallet address or image."), db)
      end
  end.

End Profile.

(** A request to one of the three endpoints that work on accounts in the
    later server. *)
Inductive profile_request : Type :=
| GetProfile (walletAddress : string) (random : nat)
| UpdateProfile (walletAddress displayName : option string) (random : nat)
| UploadAvatar (up : Profile.uploaded) (walletAddress : option string).

Definition profile_serve (trim : string -> string) (r : profile_request)
    (db : list Profile.doc) : list Profile.doc :=
  match r with
  | GetProfile walletAddress random => snd (Profile.get_user walletAddress random db)
  | UpdateProfile walletAddress displayName random =>
      snd (Profile.post_update_profile trim walletAddress displayName random db)
  | UploadAvatar up walletAddress => snd (Profile.post_upload_avatar up walletAddress db)
  end.

Definition profile_serve_all (trim : string -> string) (rs : list profile_request)
    (db : list Profile.doc) : list Profile.doc :=
  fold_left (fun d r => profile_serve trim r d) rs db.

(* ------------------------------------------------------------------------- *)
(** ** [POST /purchase] between its awaits *)

(** Where a [/purchase] request can be waiting, with the local variables
    that are live there.  Each constructor names the operation whose result
    the handler awaits. *)
Inductive task : Type :=
| AtStart (req : Req.body)
| AtFindOne (walletAddress : string) (usdSpent tokensReceived : float)
            (transactionId : string) (referralCode : option string)
| AtSave (walletAddress : string) (usdSpent tokensReceived : float)
         (transactionId : string) (referralCode : option string)
| AtFindUser (code : string) (usdSpent : float)
| AtSaveUser (id : nat) (refUser : User.doc)
| Finished (answer : option response).

(** One operation of the task against the shared stores, and the handler's
    own code up to its next [await]. *)
Definition step (e : env) (t : task) (w : world) : task * world :=
  match t with
  | AtStart req =>
      match JS.truthy_str (Req.walletAddress req), JS.truthy_num (Req.usdSpent req),
            JS.truthy_num (Req.tokensReceived req), JS.truthy_str (Req.transactionId req) with
      | Some walletAddress, Some usdSpent, Some tokensReceived, Some transactionId =>
          match try_catch
                  (isValid <- validateSignatureOnChain e transactionId walletAddress usdSpent ;;
                   if negb isValid then ret (Some Rejected_invalid) else ret None)
                  (fun _ => ret (Some Rejected_unable)) w with
          | (Normal (Some r), w') => (Finished (Some r), w')
          | (Normal None, w') =>
              (AtFindOne walletAddress usdSpent tokensReceived transactionId
                         (Req.referralCode req), w')
          | (Throw _, w') => (Finished None, w')
          end
      | _, _, _, _ => (Finished (Some Rejected_missing), w)
      end
  | AtFindOne walletAddress usdSpent tokensReceived transactionId referralCode =>
      match Purchase_findOne transactionId w with
      | (Normal (Some _), w') => (Finished (Some Duplicate), w')
      | (Normal None, w') =>
          (AtSave walletAddress usdSpent tokensReceived transactionId referralCode, w')
      | (Throw _, w') => (Finished None, w')
      end
  | AtSave walletAddress usdSpent tokensReceived transactionId referralCode =>
      match Purchase_save (Purchase.Build (Some walletAddress) usdSpent tokensReceived
                                          transactionId (JS.truthy_str referralCode)) w with
      | (Normal _, w') =>
          match JS.truthy_str referralCode with
          | Some code => (AtFindUser code usdSpent, w')
          | None => (Finished (Some Recorded), w')
          end
      | (Throw _, w') => (Finished None, w')
      end
  | AtFindUser code usdSpent =>
      match User_findOne_referralCode code w with
      | (Normal (Some (id, u)), w') =>
          let bonus := (0.05 * JS.parseFloat (Some usdSpent))%float in
          (AtSaveUser id (User.set_referralEarnings u (User.referralEarnings u + bonus)%float),
           w')
      | (Normal None, w') => (Finished (Some Recorded), w')
      | (Throw _, w') => (Finished None, w')
      end
  | AtSaveUser id refUser =>
      match User_save_referralEarnings id refUser w with
      | (Normal _, w') => (Finished (Some Recorded), w')
      | (Throw _, w') => (Finished None, w')
      end
  | Finished answer => (Finished answer, w)
  end.

Fixpoint steps (e : env) (n : nat) (t : task) (w : world) : task * world :=
  match n with
  | O => (t, w)
  | S n' => let (t', w') := step e t w in steps e n' t' w'
  end.

(** A request that runs with no other request in between. *)
Definition run_alone (e : env) (req : Req.body) (w : world) : task * world :=
  steps e 5 (AtStart req) w.

(** Several requests in flight: [schedule] lists, in order, which task
    performs its next operation. *)
Fixpoint interleave (e : env) (schedule : list nat) (ts : list task) (w : world)
    : list task * world :=
  match schedule with
  | [] => (ts, w)
  | i :: schedule' =>
      match nth_error ts i with
      | Some t =>
          let (t', w') := step e t w in
          interleave e schedule' (update_at i (fun _ => t') ts) w'
      | None => interleave e schedule' ts w
      end
  end.

(** The documents stored under a transaction id. *)
Definition stored_under (transactionId : string) (w : world) : list Purchase.doc :=
  filter (fun p => Purchase.transactionId p =? transactionId) (purchases w).

(* ========================================================================= *)
(** * Properties *)

(** ** Whole numbers held in doubles

    What "the sum" of amounts means is fixed here without any floating
    point: on the whole numbers the doubles hold, in [Z]. *)

(** The whole number a double holds, if it holds one. *)
Definition whole (x : float) : option Z :=
  match Prim2SF x with
  | S754_zero _ => Some 0%Z
  | S754_finite s m e =>
      let sign (z : Z) := if s then (- z)%Z else z in
      if (0 <=? e)%Z then Some (sign (Z.pos m * 2 ^ e)%Z)
      else if (Z.pos m mod 2 ^ (- e) =? 0)%Z then Some (sign (Z.pos m / 2 ^ (- e))%Z)
      else None
  | _ => None
  end.

(** The whole numbers a list of doubles holds, if all of them do. *)
Fixpoint wholes (l : list float) : option (list Z) :=
  match l with
  | [] => Some []
  | x :: l' =>
      match whole x, wholes l' with
      | Some z, Some zs => Some (z :: zs)
      | _, _ => None
      end
  end.

Definition total (zs : list Z) : Z := fold_right Z.add 0%Z zs.

Definition magnitude (zs : list Z) : Z := fold_right (fun z a => (Z.abs z + a)%Z) 0%Z zs.

(** [Number.MAX_SAFE_INTEGER] *)
Definition MAX_SAFE_INTEGER : Z := (2 ^ 53 - 1)%Z.


(** The double that holds a whole number of magnitude up to
    [MAX_SAFE_INTEGER]: 53 binary digits and the exponent that goes with
    them. *)
Definition double_of (z : Z) : float :=
  let finite (s : bool) (p : positive) :=
    SF2Prim (S754_finite s (Pos.shiftl_nat p (53 - Pos.to_nat (digits2_pos p)))
                         (Z.pos (digits2_pos p) - 53)) in
  match z with
  | Z0 => 0%float
  | Zpos p => finite false p
  | Zneg p => finite true p
  end.

(** Concrete surroundings used by the examples below: a ledger node that
    knows two presale payments, a database that sums whole numbers in [Z]
    and other numbers one after the other, and a store with one referrer. *)
Module Sample.

Definition sum (l : list float) : float :=
  match wholes l with
  | Some zs => if (magnitude zs <=? MAX_SAFE_INTEGER)%Z then double_of (total zs)
               else sum_floats l
  | None => sum_floats l
  end.

Definition presale : string := "PRESALE".

Definition chain (s : string) : rpc_reply :=
  if s =? "sig1" then RpcTx ["alice"; presale]
  else if s =? "sig2" then RpcTx ["bob"; presale]
  else RpcNull.

Definition online : env := Env (Some presale) chain (fun _ => true) sum.

(** The same surroundings with the ledger node out of reach. *)
Definition offline : env := Env (Some presale) (fun _ => RpcFail) (fun _ => true) sum.

Definition carol : User.doc := User.Build "carol" (Some "REF7") 0%float.

Definition store : world := World [] [carol] [].



Definition buy (wallet sig : string) (usd : float) (code : option string) : Req.body :=
  Req.Build (Some wallet) (Some usd) (Some 11750%float) (Some sig) code.

(** A webhook instruction that pays 2.5 dollars (in millionths) to the
    presale wallet, a record that carries it without [signers], and one
    that carries it with them. *)
Definition pay : Hook.instruction :=
  Hook.Instruction (Some (Hook.Info (Some presale) (Some 2500000%float))).

Definition unsigned_tx : Hook.tx := Hook.Tx "sig1" (Some [pay]) None.

Definition signed_tx : Hook.tx := Hook.Tx "sig2" (Some [pay]) (Some ["bob"]).

End Sample.

(* ------------------------------------------------------------------------- *)
(** ** Numbers *)

Lemma SFcompare_refl (x : spec_float) :
  x <> S754_nan -> SFcompare x x = Some Eq.
Proof.
  destruct x as [s | s | | s m e]; simpl; intros H; try congruence.
  - destruct s; reflexivity.
  - rewrite Z.compare_refl, Pos.compare_cont_refl. destruct s; reflexivity.
Qed.

(** A number below zero is truthy: it is neither zero nor [NaN]. *)
Lemma negative_is_truthy (x : float) :
  (x <? 0)%float = true -> JS.falsy_num x = false.
Proof.
  unfold JS.falsy_num, is_nan.
  rewrite FloatAxioms.ltb_spec, !FloatAxioms.eqb_spec.
  change (Prim2SF 0) with (S754_zero false).
  unfold SFltb, SFeqb.
  destruct (Prim2SF x) as [s | s | | s m e] eqn:E; simpl; try discriminate.
  - destruct s; simpl; try discriminate; reflexivity.
  - destruct s; simpl; try discriminate.
    rewrite Z.compare_refl, Pos.compare_cont_refl. reflexivity.
Qed.

Lemma truthy_num_Some (v : option float) (x : float) :
  JS.truthy_num v = Some x -> v = Some x /\ JS.falsy_num x = false.
Proof.
  destruct v as [y |]; simpl; [| discriminate].
  destruct (JS.falsy_num y) eqn:E; [discriminate |].
  intros H; injection H as <-. auto.
Qed.

Lemma truthy_str_Some (v : option string) (s : string) :
  JS.truthy_str v = Some s -> v = Some s /\ s <> "".
Proof.
  destruct v as [y |]; simpl; [| discriminate].
  unfold JS.falsy_str. destruct (String.eqb_spec y "") as [-> | N]; [discriminate |].
  intros H; injection H as <-. auto.
Qed.

(** [parseFloat] gives back a truthy number unchanged. *)
Lemma parseFloat_truthy (x : float) :
  JS.falsy_num x = false -> JS.parseFloat (Some x) = x.
Proof.
  unfold JS.falsy_num, JS.parseFloat. intros H.
  apply orb_false_iff in H as [H _]. now rewrite H.
Qed.

(* ------------------------------------------------------------------------- *)
(** ** Binary64 arithmetic

    Facts about IEEE addition and multiplication, from the specification of
    the primitive operations in [SpecFloat]. *)

Module Binary64.

Local Unset Implicit Arguments.
Local Open Scope Z_scope.

Lemma digits2_pos_size (p : positive) : digits2_pos p = Pos.size p.
Proof. induction p; simpl; congruence. Qed.

Lemma digits2_pos_bounds (p : positive) :
  2 ^ (Z.pos (digits2_pos p) - 1) <= Z.pos p < 2 ^ Z.pos (digits2_pos p).
Proof.
  rewrite digits2_pos_size. split.
  - pose proof (Pos.size_le p) as H.
    assert (H' : Z.pos (2 ^ Pos.size p) <= Z.pos p~0) by exact H.
    rewrite Pos2Z.inj_pow in H'.
    replace (Z.pos (Pos.size p)) with (Z.succ (Z.pos (Pos.size p) - 1)) in H' by lia.
    rewrite Z.pow_succ_r in H' by lia. lia.
  - pose proof (Pos.size_gt p) as H.
    assert (H' : Z.pos p < Z.pos (2 ^ Pos.size p)) by exact H.
    now rewrite Pos2Z.inj_pow in H'.
Qed.

(** A lower bound on a number bounds its number of digits. *)
Lemma digits2_pos_lower (p : positive) (k : Z) :
  0 <= k -> 2 ^ k <= Z.pos p -> k < Z.pos (digits2_pos p).
Proof.
  intros Hk H. destruct (digits2_pos_bounds p) as [_ Hu].
  apply (Z.pow_lt_mono_r_iff 2); lia.
Qed.

Lemma shr_1_m (mrs : shr_record) :
  0 <= shr_m mrs -> shr_m (shr_1 mrs) = shr_m mrs / 2.
Proof.
  destruct mrs as [m r s]. simpl. intros H.
  destruct m as [| p | p]; [reflexivity | | lia].
  rewrite <- Z.div2_div. destruct p; reflexivity.
Qed.

Lemma iter_pos_shr_1_m (p : positive) (mrs : shr_record) :
  0 <= shr_m mrs ->
  shr_m (SpecFloat.iter_pos shr_1 p mrs) = shr_m mrs / 2 ^ Z.pos p.
Proof.
  revert mrs. induction p as [p IH | p IH |]; intros mrs H; simpl SpecFloat.iter_pos.
  - assert (H1 : 0 <= shr_m (shr_1 mrs)).
    { rewrite shr_1_m by assumption. apply Z.div_pos; lia. }
    assert (H2 : 0 <= shr_m (SpecFloat.iter_pos shr_1 p (shr_1 mrs))).
    { rewrite IH by assumption. apply Z.div_pos; [assumption | apply Z.pow_pos_nonneg; lia]. }
    rewrite IH, IH, shr_1_m by assumption.
    rewrite !Z.div_div by (try apply Z.pow_pos_nonneg; lia).
    f_equal.
    replace (Z.pos p~1) with (1 + Z.pos p + Z.pos p) by lia.
    rewrite !Z.pow_add_r by lia. lia.
  - assert (H2 : 0 <= shr_m (SpecFloat.iter_pos shr_1 p mrs)).
    { rewrite IH by assumption. apply Z.div_pos; [assumption | apply Z.pow_pos_nonneg; lia]. }
    rewrite IH, IH by assumption.
    rewrite !Z.div_div by (try apply Z.pow_pos_nonneg; lia).
    f_equal.
    replace (Z.pos p~0) with (Z.pos p + Z.pos p) by lia.
    rewrite !Z.pow_add_r by lia. lia.
  - rewrite shr_1_m by assumption. reflexivity.
Qed.

(** [shr] divides the mantissa by [2 ^ n] and adds [n] to the exponent,
    when [n] is positive. *)
Lemma shr_spec (mrs : shr_record) (e n : Z) :
  0 <= shr_m mrs ->
  shr_m (fst (shr mrs e n)) = shr_m mrs / 2 ^ Z.max n 0 /\
  snd (shr mrs e n) = e + Z.max n 0.
Proof.
  intros H. unfold shr. destruct n as [| p | p]; simpl fst; simpl snd.
  - rewrite Z.div_1_r. split; [reflexivity | lia].
  - rewrite iter_pos_shr_1_m by assumption. rewrite Z.max_l by lia. split; reflexivity.
  - rewrite Z.max_r by lia. rewrite Z.div_1_r. split; [reflexivity | lia].
Qed.

Lemma shr_record_of_loc_m (m : Z) (l : location) : shr_m (shr_record_of_loc m l) = m.
Proof. destruct l as [| []]; reflexivity. Qed.

Lemma round_nearest_even_ge (m : Z) (l : location) : m <= round_nearest_even m l.
Proof.
  destruct l as [| []]; simpl; try lia. destruct (Z.even m); lia.
Qed.

Lemma fexp_max (z : Z) : fexp prec emax z = Z.max (z - prec) emin.
Proof. reflexivity. Qed.

Lemma fexp_ge_emin (z : Z) : emin <= fexp prec emax z.
Proof. rewrite fexp_max. apply Z.le_max_r. Qed.

Lemma fexp_mono (a b : Z) : a <= b -> fexp prec emax a <= fexp prec emax b.
Proof. rewrite !fexp_max. lia. Qed.

(** The shift to the canonical exponent, on a positive mantissa at an
    exponent that is not below [emin]. *)
Lemma shr_fexp_spec (p : positive) (e : Z) (l : location) :
  emin <= e ->
  snd (shr_fexp prec emax (Z.pos p) e l)
  = Z.max e (fexp prec emax (Z.pos (digits2_pos p) + e)) /\
  shr_m (fst (shr_fexp prec emax (Z.pos p) e l))
  = Z.pos p / 2 ^ (snd (shr_fexp prec emax (Z.pos p) e l) - e) /\
  0 < shr_m (fst (shr_fexp prec emax (Z.pos p) e l)).
Proof.
  intros He. unfold shr_fexp. simpl Zdigits2.
  set (n := fexp prec emax (Z.pos (digits2_pos p) + e) - e).
  assert (Hm : 0 <= shr_m (shr_record_of_loc (Z.pos p) l)).
  { rewrite shr_record_of_loc_m. lia. }
  destruct (shr_spec (shr_record_of_loc (Z.pos p) l) e n Hm) as [Hq He'].
  rewrite shr_record_of_loc_m in Hq.
  rewrite He', Hq.
  split; [unfold n; lia |].
  split; [f_equal; f_equal; lia |].
  destruct (Z_le_gt_dec n 0) as [Hn | Hn].
  - rewrite Z.max_r by assumption. rewrite Z.div_1_r. lia.
  - rewrite Z.max_l by lia.
    assert (Hn' : n = Z.pos (digits2_pos p) - prec).
    { unfold n in *. rewrite fexp_max in *. lia. }
    destruct (digits2_pos_bounds p) as [Hl _].
    apply Z.div_str_pos. split; [apply Z.pow_pos_nonneg; lia |].
    apply Z.le_trans with (2 := Hl).
    apply Z.pow_le_mono_r; [lia |]. rewrite Hn'. unfold prec. lia.
Qed.

Lemma canonical_fexp (m : positive) (e : Z) :
  bounded prec emax m e = true ->
  fexp prec emax (Z.pos (digits2_pos m) + e) = e.
Proof.
  unfold bounded, canonical_mantissa. intros H.
  apply andb_prop in H as [H _]. now apply Z.eqb_eq in H.
Qed.

(** Rounding a number that is at least a given float gives at least that
    float. *)
Lemma binary_round_aux_ge (m1 : positive) (e1 : Z) (M : positive) (ez : Z) :
  bounded prec emax m1 e1 = true ->
  emin <= ez <= e1 ->
  Z.pos m1 * 2 ^ (e1 - ez) <= Z.pos M ->
  SFleb (S754_finite false m1 e1)
        (binary_round_aux prec emax false (Z.pos M) ez loc_Exact) = true.
Proof.
  intros Hb [Hz1 Hz2] HM.
  pose proof (canonical_fexp m1 e1 Hb) as Hc.
  (* the sum has enough digits *)
  assert (Hd : Z.pos (digits2_pos m1) + e1 <= Z.pos (digits2_pos M) + ez).
  { destruct (digits2_pos_bounds m1) as [Hl _].
    assert (H2 : 2 ^ (Z.pos (digits2_pos m1) - 1 + (e1 - ez)) <= Z.pos M).
    { rewrite Z.pow_add_r by lia.
      apply Z.le_trans with (2 := HM).
      apply Z.mul_le_mono_nonneg_r; [apply Z.pow_nonneg; lia | assumption]. }
    apply digits2_pos_lower in H2; lia. }
  unfold binary_round_aux.
  destruct (shr_fexp_spec M ez loc_Exact Hz1) as (HE & Hq & Hq0).
  destruct (shr_fexp prec emax (Z.pos M) ez loc_Exact) as [mrs' E]. simpl fst in *; simpl snd in *.
  assert (HE1 : e1 <= E).
  { rewrite HE. apply fexp_mono in Hd. rewrite Hc in Hd. lia. }
  pose proof (round_nearest_even_ge (shr_m mrs') (loc_of_shr_record mrs')) as Hr.
  destruct (round_nearest_even (shr_m mrs') (loc_of_shr_record mrs')) as [| mr | mr] eqn:Er;
    try lia.
  assert (HEm : emin <= E) by lia.
  destruct (shr_fexp_spec mr E loc_Exact HEm) as (HE' & Hq' & Hq0').
  destruct (shr_fexp prec emax (Z.pos mr) E loc_Exact) as [mrs'' E'].
  simpl fst in *; simpl snd in *.
  destruct (shr_m mrs'') as [| m'' | m''] eqn:Em; try lia.
  destruct (E' <=? emax - prec); [| reflexivity].
  unfold SFleb, SFcompare.
  destruct (Z.compare_spec e1 E') as [Heq | Hlt | Hgt]; [| reflexivity | lia].
  (* same exponent: compare the mantissas *)
  assert (HEe : E = e1) by lia.
  assert (HEe' : E' = e1) by lia.
  rewrite HEe', HEe, Z.sub_diag, Z.div_1_r in Hq'.
  rewrite HEe in Hq.
  assert (Hm1 : Z.pos m1 <= shr_m mrs').
  { rewrite Hq. apply Z.div_le_lower_bound; [apply Z.pow_pos_nonneg; lia | lia]. }
  assert (Hle : (m1 <= m'')%positive) by lia.
  change (Pos.compare_cont Eq m1 m'') with (Pos.compare m1 m'').
  destruct (Pos.compare_spec m1 m''); [reflexivity | reflexivity | lia].
Qed.

Lemma shl_align_value (m : positive) (e e' : Z) :
  e' <= e -> Z.pos (fst (shl_align m e e')) = Z.pos m * 2 ^ (e - e').
Proof.
  intros H. unfold shl_align.
  destruct (e' - e) as [| d | d] eqn:Ed; simpl fst; try lia.
  - replace (e - e') with 0 by lia. lia.
  - change (Pos.iter xO m d) with (shift_pos d m).
    rewrite shift_pos_correct, Z.pow_pos_fold.
    replace (e - e') with (Z.pos d) by lia. lia.
Qed.

Lemma shl_align_same (m : positive) (e e' : Z) :
  e <= e' -> shl_align m e e' = (m, e).
Proof.
  intros H. unfold shl_align. destruct (e' - e) eqn:Ed; try reflexivity. lia.
Qed.

Lemma bounded_emin (m : positive) (e : Z) : bounded prec emax m e = true -> emin <= e.
Proof. intros H. rewrite <- (canonical_fexp m e H). apply fexp_ge_emin. Qed.

Lemma SFcompare_refl_finite (s : bool) (m : positive) (e : Z) :
  SFcompare (S754_finite s m e) (S754_finite s m e) = Some Eq.
Proof.
  simpl. rewrite Z.compare_refl, Pos.compare_cont_refl. destruct s; reflexivity.
Qed.

(** Adding a number that is not negative to one that is not negative
    does not go below the latter. *)
Lemma SFadd_ge_left (x y : spec_float) :
  valid_binary x = true -> valid_binary y = true ->
  SFleb (S754_zero false) x = true ->
  SFleb (S754_zero false) y = true ->
  SFleb x (SFadd prec emax x y) = true.
Proof.
  intros Vx Vy Hx Hy.
  destruct x as [sx | sx | | sx m1 e1]; destruct y as [sy | sy | | sy m2 e2];
    try discriminate;
    try (destruct sx; try discriminate); try (destruct sy; try discriminate);
    try reflexivity.
  - (* finite + zero *)
    simpl. unfold SFleb. now rewrite SFcompare_refl_finite.
  - simpl. unfold SFleb. now rewrite SFcompare_refl_finite.
  - (* finite + finite *)
    simpl in Vx, Vy. unfold SFadd. cbv zeta. unfold cond_Zopp.
    set (ez := Z.min e1 e2).
    pose proof (bounded_emin _ _ Vx) as B1. pose proof (bounded_emin _ _ Vy) as B2.
    assert (Hz : emin <= ez <= e1) by (unfold ez; lia).
    pose proof (shl_align_value m1 e1 ez (proj2 Hz)) as A1.
    assert (HM : Z.pos m1 * 2 ^ (e1 - ez)
                 <= Z.pos (fst (shl_align m1 e1 ez) + fst (shl_align m2 e2 ez))) by lia.
    change (Z.pos (fst (shl_align m1 e1 ez)) + Z.pos (fst (shl_align m2 e2 ez)))
      with (Z.pos (fst (shl_align m1 e1 ez) + fst (shl_align m2 e2 ez))).
    set (M := (fst (shl_align m1 e1 ez) + fst (shl_align m2 e2 ez))%positive) in *.
    unfold binary_normalize, binary_round.
    rewrite shl_align_same.
    + now apply binary_round_aux_ge.
    + (* the canonical exponent of the sum is not below ez *)
      pose proof (canonical_fexp m1 e1 Vx) as Hc.
      destruct (digits2_pos_bounds m1) as [Hl _].
      assert (H2 : 2 ^ (Z.pos (digits2_pos m1) - 1 + (e1 - ez)) <= Z.pos M).
      { rewrite Z.pow_add_r by lia.
        apply Z.le_trans with (2 := HM).
        apply Z.mul_le_mono_nonneg_r; [apply Z.pow_nonneg; lia | assumption]. }
      apply digits2_pos_lower in H2; [| lia].
      assert (Hd : Z.pos (digits2_pos m1) + e1 <= Z.pos (digits2_pos M) + ez) by lia.
      apply fexp_mono in Hd. rewrite Hc in Hd. lia.
Qed.

Lemma binary_round_aux_nonneg (m e : Z) (l : location) :
  0 <= m ->
  SFleb (S754_zero false) (binary_round_aux prec emax false m e l) = true.
Proof.
  intros Hm. unfold binary_round_aux, shr_fexp.
  assert (H0 : 0 <= shr_m (shr_record_of_loc m l)) by (rewrite shr_record_of_loc_m; lia).
  destruct (shr_spec (shr_record_of_loc m l) e
                     (fexp prec emax (Zdigits2 m + e) - e) H0) as [Hq _].
  rewrite shr_record_of_loc_m in Hq.
  destruct (shr (shr_record_of_loc m l) e (fexp prec emax (Zdigits2 m + e) - e))
    as [mrs' e'].
  simpl fst in Hq.
  assert (Hq0 : 0 <= shr_m mrs').
  { rewrite Hq. apply Z.div_pos; [assumption | apply Z.pow_pos_nonneg; lia]. }
  pose proof (round_nearest_even_ge (shr_m mrs') (loc_of_shr_record mrs')) as Hr.
  set (mr := round_nearest_even (shr_m mrs') (loc_of_shr_record mrs')) in *.
  assert (H1 : 0 <= shr_m (shr_record_of_loc mr loc_Exact)) by (simpl; lia).
  destruct (shr_spec (shr_record_of_loc mr loc_Exact) e'
                     (fexp prec emax (Zdigits2 mr + e') - e') H1) as [Hq' _].
  destruct (shr (shr_record_of_loc mr loc_Exact) e' (fexp prec emax (Zdigits2 mr + e') - e'))
    as [mrs'' e''].
  simpl fst in Hq'. simpl shr_m in Hq' at 2.
  assert (Hq0' : 0 <= shr_m mrs'').
  { rewrite Hq'. apply Z.div_pos; [lia | apply Z.pow_pos_nonneg; lia]. }
  destruct (shr_m mrs'') as [| m'' | m'']; [reflexivity | | lia].
  destruct (e'' <=? emax - prec); reflexivity.
Qed.

Lemma SFleb_trans (x y z : spec_float) :
  SFleb x y = true -> SFleb y z = true -> SFleb x z = true.
Proof.
  unfold SFleb, SFcompare.
  destruct x as [sx | sx | | sx mx ex]; destruct y as [sy | sy | | sy my ey];
    destruct z as [sz | sz | | sz mz ez];
    try destruct sx; try destruct sy; try destruct sz;
    try discriminate; try reflexivity;
    change (Pos.compare_cont Eq) with Pos.compare;
    destruct (Z.compare_spec ex ey); destruct (Z.compare_spec ey ez);
    destruct (Z.compare_spec ex ez);
    try discriminate; try reflexivity; try lia; subst;
    destruct (Pos.compare_spec mx my); destruct (Pos.compare_spec my mz);
    destruct (Pos.compare_spec mx mz);
    simpl; try discriminate; try reflexivity; try lia.
Qed.

Local Open Scope float_scope.

(** Adding a number that is not negative does not decrease a number that
    is not negative. *)
Lemma add_nonneg_ge (x b : float) :
  (0 <=? x) = true -> (0 <=? b) = true -> (x <=? x + b) = true.
Proof.
  rewrite !FloatAxioms.leb_spec, FloatAxioms.add_spec. change (Prim2SF 0) with (S754_zero false).
  apply SFadd_ge_left; apply Prim2SF_valid.
Qed.

Lemma leb_trans (x y z : float) :
  (x <=? y) = true -> (y <=? z) = true -> (x <=? z) = true.
Proof. rewrite !FloatAxioms.leb_spec. apply SFleb_trans. Qed.

(** Five per cent of a number that is not negative is not negative. *)
Lemma bonus_nonneg (a : float) : (0 <=? a) = true -> (0 <=? 0.05 * a) = true.
Proof.
  rewrite !FloatAxioms.leb_spec, FloatAxioms.mul_spec.
  change (Prim2SF 0) with (S754_zero false).
  change (Prim2SF 0.05) with (S754_finite false 7205759403792794 (-57)).
  destruct (Prim2SF a) as [s | s | | s m e]; try discriminate.
  - intros _. destruct s; reflexivity.
  - destruct s; [discriminate | reflexivity].
  - destruct s; [discriminate |]. intros _.
    unfold SF64mul, SFmul. simpl xorb.
    apply binary_round_aux_nonneg. lia.
Qed.

(** A number that is not negative is not [NaN]: it compares equal to
    itself. *)
Lemma leb_refl_nonneg (x : float) : (0 <=? x) = true -> (x <=? x) = true.
Proof.
  rewrite !FloatAxioms.leb_spec. change (Prim2SF 0) with (S754_zero false).
  unfold SFleb. intros H.
  rewrite SFcompare_refl; [reflexivity |].
  intros E. rewrite E in H. discriminate.
Qed.

End Binary64.

(* ------------------------------------------------------------------------- *)
(** ** Whole numbers held in doubles *)

Section WholeNumbers.

Local Open Scope Z_scope.







End WholeNumbers.

(* ------------------------------------------------------------------------- *)
(** ** The chain verifier *)

(** The world after one more call to the ledger node. *)
Definition logged (txSignature : string) (w : world) : world :=
  World (purchases w) (users w) (rpc_log w ++ [txSignature]).

(** The verdict of [validateSignatureOnChain], read off the ledger node's
    reply; the claimed amount is not among its arguments. *)
Definition confirmed (e : env) (txSignature fromWallet : string) : bool :=
  match getTransaction e txSignature with
  | RpcTx (key0 :: rest) =>
      valid_key e fromWallet
      && (key0 =? fromWallet)
      && valid_key e (JS.or_str (PRESALE_WALLET e) default_presale_wallet)
      && existsb (fun k => k =? JS.or_str (PRESALE_WALLET e) default_presale_wallet)
                 (key0 :: rest)
  | _ => false
  end.

Lemma find_existsb {A} (f : A -> bool) (l : list A) :
  match find f l with Some _ => true | None => false end = existsb f l.
Proof.
  induction l as [| x l IH]; simpl; [reflexivity |].
  destruct (f x); simpl; auto.
Qed.

(** The verifier always returns a boolean: every failure inside it, the
    unreachable node included, comes out as [false]. *)
Lemma validateSignatureOnChain_returns (e : env) (s f : string) (a : float) (w : world) :
  validateSignatureOnChain e s f a w = (Normal (confirmed e s f), logged s w).
Proof.
  unfold validateSignatureOnChain, confirmed, try_catch, bind, rpc_getTransaction,
    new_PublicKey, logged.
  destruct (getTransaction e s) as [| | keys]; simpl; try reflexivity.
  destruct (valid_key e f) eqn:Vf; simpl.
  2: { destruct keys; reflexivity. }
  destruct keys as [| key0 rest]; simpl; [reflexivity |].
  destruct (key0 =? f) eqn:K; simpl; [| reflexivity].
  destruct (valid_key e (JS.or_str (PRESALE_WALLET e) default_presale_wallet)) eqn:Vp;
    simpl; [| reflexivity].
  pose proof (find_existsb
                (fun k => k =? JS.or_str (PRESALE_WALLET e) default_presale_wallet)
                (key0 :: rest)) as F.
  unfold ret. simpl in F |- *.
  destruct (key0 =? JS.or_str (PRESALE_WALLET e) default_presale_wallet);
    simpl in F |- *; [reflexivity |].
  rewrite <- F. destruct (find _ rest); reflexivity.
Qed.

(* ------------------------------------------------------------------------- *)
(** ** [POST /purchase], run to completion *)

Lemma truthy_not_nan (x : float) : JS.falsy_num x = false -> is_nan x = false.
Proof. unfold JS.falsy_num. intros H. now apply orb_false_iff in H. Qed.

(** The account a referral code resolves to: the first one holding it, if
    the code is a non-empty string. *)
Definition resolve (referralCode : option string) (us : list User.doc)
    : option (nat * User.doc) :=
  match JS.truthy_str referralCode with
  | Some code => find_indexed (fun u => JS.strict_eq (User.referralCode u) (Some code)) us
  | None => None
  end.

(** The document [/purchase] stores for a request that passed its checks. *)
Definition purchase_of (walletAddress : string) (usdSpent tokensReceived : float)
    (transactionId : string) (referralCode : option string) : Purchase.doc :=
  Purchase.Build (Some walletAddress) usdSpent tokensReceived transactionId
                 (JS.truthy_str referralCode).

(** Split on the four presence tests of [/purchase]; [missing] closes the
    cases in which one of them fails. *)
Ltac presence req missing :=
  destruct (JS.truthy_str (Req.walletAddress req)) as [walletAddress |] eqn:Ew;
    [| missing];
  destruct (JS.truthy_num (Req.usdSpent req)) as [usdSpent |] eqn:Eu;
    [| missing];
  destruct (JS.truthy_num (Req.tokensReceived req)) as [tokensReceived |] eqn:Ek;
    [| missing];
  destruct (JS.truthy_str (Req.transactionId req)) as [transactionId |] eqn:Ei;
    [| missing].

(** The handler, path by path. *)
Lemma post_purchase_paths (e : env) (req : Req.body) (w : world) :
  handle (post_purchase e req) w =
  match JS.truthy_str (Req.walletAddress req), JS.truthy_num (Req.usdSpent req),
        JS.truthy_num (Req.tokensReceived req), JS.truthy_str (Req.transactionId req) with
  | Some walletAddress, Some usdSpent, Some tokensReceived, Some transactionId =>
      if negb (confirmed e transactionId walletAddress)
      then (Some Rejected_invalid, logged transactionId w)
      else
        match find (fun p => Purchase.transactionId p =? transactionId) (purchases w) with
        | Some _ => (Some Duplicate, logged transactionId w)
        | None =>
            let p := purchase_of walletAddress usdSpent tokensReceived transactionId
                                 (Req.referralCode req) in
            let w1 := World (purchases w ++ [p]) (users w) (rpc_log w ++ [transactionId]) in
            match resolve (Req.referralCode req) (users w) with
            | Some (id, u) =>
                let earned := (User.referralEarnings u + 0.05 * usdSpent)%float in
                if is_nan earned then (None, w1)
                else (Some Recorded,
                      World (purchases w1)
                            (update_at id (fun v => User.set_referralEarnings v earned)
                                       (users w))
                            (rpc_log w1))
            | None => (Some Recorded, w1)
            end
        end
  | _, _, _, _ => (Some Rejected_missing, w)
  end.
Proof.
  unfold handle, post_purchase.
  presence req reflexivity.
  apply truthy_num_Some in Eu as [_ Hu], Ek as [_ Ht].
  unfold bind at 1. unfold try_catch at 1. unfold bind at 1.
  rewrite validateSignatureOnChain_returns.
  destruct (confirmed e transactionId walletAddress); simpl; [| reflexivity].
  unfold bind at 1. unfold Purchase_findOne at 1. simpl.
  destruct (find _ (purchases w)); [reflexivity |].
  unfold bind at 1. unfold Purchase_save at 1. simpl.
  rewrite (truthy_not_nan _ Hu), (truthy_not_nan _ Ht). simpl.
  unfold resolve, purchase_of.
  destruct (JS.truthy_str (Req.referralCode req)) as [code |]; [| reflexivity].
  unfold bind at 1. unfold User_findOne_referralCode at 1. simpl.
  destruct (find_indexed _ (users w)) as [[id u] |]; [| reflexivity].
  assert (Hz : (usdSpent =? 0)%float = false).
  { unfold JS.falsy_num in Hu. now apply orb_false_iff in Hu. }
  unfold bind, User_save_referralEarnings. simpl.
  rewrite Hz.
  destruct (is_nan _); reflexivity.
Qed.

(** Left to itself, the task is the handler: five operations at most, the
    same answer and the same stores. *)
Lemma run_alone_is_handler (e : env) (req : Req.body) (w : world) :
  run_alone e req w =
  (Finished (fst (handle (post_purchase e req) w)), snd (handle (post_purchase e req) w)).
Proof.
  rewrite post_purchase_paths.
  unfold run_alone, steps. unfold step at 1.
  presence req reflexivity.
  apply truthy_num_Some in Eu as [_ Hu], Ek as [_ Ht].
  assert (Hz : (usdSpent =? 0)%float = false).
  { unfold JS.falsy_num in Hu. now apply orb_false_iff in Hu. }
  unfold try_catch at 1. unfold bind at 1.
  rewrite validateSignatureOnChain_returns.
  destruct (confirmed e transactionId walletAddress); simpl; [| reflexivity].
  destruct (find _ (purchases w)); [reflexivity |].
  simpl. unfold Purchase_save at 1. cbn [Purchase.usdSpent Purchase.tokensReceived].
  rewrite (truthy_not_nan _ Hu), (truthy_not_nan _ Ht). simpl.
  unfold resolve, purchase_of.
  destruct (JS.truthy_str (Req.referralCode req)) as [code |]; [| reflexivity].
  simpl.
  destruct (find_indexed _ (users w)) as [[id u] |]; [| reflexivity].
  rewrite Hz. simpl. unfold User_save_referralEarnings. simpl.
  destruct (is_nan (User.referralEarnings u + _)%float) eqn:N; reflexivity.
Qed.

(** The answers [/purchase] can give.  ["Unable to validate transaction."]
    is not among them: the handler's [catch] around the verifier never runs,
    since the verifier catches every error itself. *)
Lemma post_purchase_answers (e : env) (req : Req.body) (w : world) :
  In (fst (handle (post_purchase e req) w))
     [Some Rejected_missing; Some Rejected_invalid; Some Duplicate; Some Recorded; None].
Proof.
  rewrite post_purchase_paths.
  presence req ltac:(simpl; auto).
  destruct (negb _); [simpl; auto |].
  destruct (find _ _); [simpl; auto |].
  cbv zeta.
  destruct (resolve _ _) as [[id u] |]; [| simpl; auto].
  destruct (is_nan _); simpl; auto 6.
Qed.

(** Verification gating: without a confirming verdict nothing is stored and
    no account changes. *)
Lemma post_purchase_unconfirmed (e : env) (req : Req.body) (w : world)
    (walletAddress transactionId : string) :
  JS.truthy_str (Req.walletAddress req) = Some walletAddress ->
  JS.truthy_str (Req.transactionId req) = Some transactionId ->
  confirmed e transactionId walletAddress = false ->
  let (a, w') := handle (post_purchase e req) w in
  purchases w' = purchases w /\ users w' = users w /\
  (a = Some Rejected_missing \/ a = Some Rejected_invalid).
Proof.
  intros Hw Ht Hc. rewrite post_purchase_paths, Hw, Ht, Hc.
  destruct (JS.truthy_num (Req.usdSpent req)); [| simpl; auto].
  destruct (JS.truthy_num (Req.tokensReceived req)); simpl; auto.
Qed.

(** Once a purchase is stored under a transaction id, a later [/purchase]
    with that id, run on its own, stores nothing and credits nobody. *)
Lemma post_purchase_known_transaction (e : env) (req : Req.body) (w : world)
    (transactionId : string) (p : Purchase.doc) :
  Req.transactionId req = Some transactionId ->
  find (fun q => Purchase.transactionId q =? transactionId) (purchases w) = Some p ->
  let (a, w') := handle (post_purchase e req) w in
  purchases w' = purchases w /\ users w' = users w /\
  (a = Some Rejected_missing \/ a = Some Rejected_invalid \/ a = Some Duplicate).
Proof.
  intros Ht Hf. rewrite post_purchase_paths.
  destruct (JS.truthy_str (Req.walletAddress req)); [| simpl; auto].
  destruct (JS.truthy_num (Req.usdSpent req)); [| simpl; auto].
  destruct (JS.truthy_num (Req.tokensReceived req)); [| simpl; auto].
  destruct (JS.truthy_str (Req.transactionId req)) as [t |] eqn:E; [| simpl; auto].
  apply truthy_str_Some in E as [E _]. rewrite Ht in E. injection E as <-.
  destruct (negb _); [simpl; auto |].
  rewrite Hf. simpl; auto.
Qed.

Lemma find_app_new {A} (f : A -> bool) (l : list A) (x : A) :
  f x = true -> exists y, find f (l ++ [x]) = Some y.
Proof.
  intros H. induction l as [| z l IH]; simpl.
  - rewrite H. eauto.
  - destruct (f z); eauto.
Qed.

(** Requests served one after the other: the request that follows a
    recorded purchase and repeats it is answered [Duplicate] as long as the
    ledger node still confirms the transaction. *)
Lemma post_purchase_repeated (e e' : env) (req : Req.body) (w w1 : world)
    (walletAddress transactionId : string) :
  handle (post_purchase e req) w = (Some Recorded, w1) ->
  JS.truthy_str (Req.walletAddress req) = Some walletAddress ->
  JS.truthy_str (Req.transactionId req) = Some transactionId ->
  confirmed e' transactionId walletAddress = true ->
  handle (post_purchase e' req) w1 = (Some Duplicate, logged transactionId w1).
Proof.
  intros H Hw Ht Hc.
  assert (Hin : exists p,
             find (fun q => Purchase.transactionId q =? transactionId) (purchases w1)
             = Some p).
  { rewrite post_purchase_paths, Hw, Ht in H.
    destruct (JS.truthy_num (Req.usdSpent req)) as [usd |]; [| discriminate].
    destruct (JS.truthy_num (Req.tokensReceived req)) as [tokens |]; [| discriminate].
    destruct (negb _); [discriminate |].
    destruct (find _ (purchases w)); [discriminate |].
    cbv zeta in H.
    assert (P : forall us lg,
               exists p,
                 find (fun q => Purchase.transactionId q =? transactionId)
                      (purchases (World (purchases w ++
                                          [purchase_of walletAddress usd tokens transactionId
                                                       (Req.referralCode req)]) us lg))
                 = Some p).
    { intros. simpl. apply find_app_new. simpl. apply String.eqb_refl. }
    destruct (resolve _ _) as [[id u] |].
    - destruct (is_nan _); [discriminate |]. injection H as <-. apply P.
    - injection H as <-. apply P. }
  destruct Hin as [p Hp].
  rewrite post_purchase_paths, Hw, Ht, Hc, Hp.
  rewrite post_purchase_paths, Hw, Ht in H.
  destruct (JS.truthy_num (Req.usdSpent req)); [| discriminate].
  destruct (JS.truthy_num (Req.tokensReceived req)); [| discriminate].
  reflexivity.
Qed.

Lemma post_purchase_unconfirmed_witness :
  let (a, w') := handle (post_purchase Sample.offline
                                       (Sample.buy "alice" "sig1" 100 (Some "REF7")))
                        Sample.store in
  purchases w' = purchases Sample.store /\ users w' = users Sample.store /\
  (a = Some Rejected_missing \/ a = Some Rejected_invalid).
Proof.
  exact (@post_purchase_unconfirmed Sample.offline
           (Sample.buy "alice" "sig1" 100 (Some "REF7")) Sample.store "alice" "sig1"
           eq_refl eq_refl eq_refl).
Defined.

Lemma post_purchase_repeated_witness :
  handle (post_purchase Sample.online (Sample.buy "alice" "sig1" 100 (Some "REF7")))
         (snd (handle (post_purchase Sample.online
                                     (Sample.buy "alice" "sig1" 100 (Some "REF7")))
                      Sample.store))
  = (Some Duplicate,
     logged "sig1"
            (snd (handle (post_purchase Sample.online
                                        (Sample.buy "alice" "sig1" 100 (Some "REF7")))
                         Sample.store))).
Proof.
  exact (@post_purchase_repeated Sample.online Sample.online
           (Sample.buy "alice" "sig1" 100 (Some "REF7")) Sample.store _ "alice" "sig1"
           eq_refl eq_refl eq_refl eq_refl).
Defined.

(* ------------------------------------------------------------------------- *)
(** ** Lists as collections *)

Lemma nth_error_update_at_same {A} (f : A -> A) (l : list A) (i : nat) :
  nth_error (update_at i f l) i = option_map f (nth_error l i).
Proof.
  revert i. induction l as [| x l IH]; intros [| i]; simpl; auto.
Qed.

Lemma nth_error_update_at_other {A} (f : A -> A) (l : list A) (i j : nat) :
  i <> j -> nth_error (update_at i f l) j = nth_error l j.
Proof.
  revert i j. induction l as [| x l IH]; intros [| i] [| j] H; simpl; auto.
  congruence.
Qed.

Lemma length_update_at {A} (f : A -> A) (l : list A) (i : nat) :
  List.length (update_at i f l) = List.length l.
Proof.
  revert i. induction l as [| x l IH]; intros [| i]; simpl; auto.
Qed.

Lemma find_from_nth_error {A} (f : A -> bool) (l : list A) (k i : nat) (x : A) :
  find_from f k l = Some (i, x) ->
  k <= i /\ nth_error l (i - k) = Some x /\ f x = true.
Proof.
  revert k. induction l as [| y l IH]; intros k; simpl; [discriminate |].
  destruct (f y) eqn:E.
  - intros H. injection H as <- <-. rewrite Nat.sub_diag. auto.
  - intros H. apply IH in H as (Hle & Hn & Hf).
    split; [lia |]. split; [| assumption].
    replace (i - k) with (S (i - S k)) by lia. assumption.
Qed.

Lemma find_indexed_nth_error {A} (f : A -> bool) (l : list A) (i : nat) (x : A) :
  find_indexed f l = Some (i, x) -> nth_error l i = Some x /\ f x = true.
Proof.
  intros H. apply find_from_nth_error in H as (_ & Hn & Hf).
  rewrite Nat.sub_0_r in Hn. auto.
Qed.

(* ------------------------------------------------------------------------- *)
(** ** Referral credit *)












(* ------------------------------------------------------------------------- *)
(** ** Input validation *)

(** A field that the handler's [!field] test takes for missing. *)
Definition blank_str (v : option string) : Prop := v = None \/ v = Some "".

Definition blank_num (v : option float) : Prop :=
  match v with
  | None => True
  | Some x => (x =? 0)%float = true \/ is_nan x = true
  end.

Definition blank (req : Req.body) : Prop :=
  blank_str (Req.walletAddress req) \/ blank_num (Req.usdSpent req) \/
  blank_num (Req.tokensReceived req) \/ blank_str (Req.transactionId req).

Lemma truthy_str_None (v : option string) : JS.truthy_str v = None <-> blank_str v.
Proof.
  unfold blank_str, JS.truthy_str, JS.falsy_str. destruct v as [s |]; [| tauto].
  destruct (String.eqb_spec s "") as [-> | N]; split; auto; try discriminate.
  intros [H | H]; congruence.
Qed.

Lemma truthy_num_None (v : option float) : JS.truthy_num v = None <-> blank_num v.
Proof.
  unfold blank_num, JS.truthy_num, JS.falsy_num. destruct v as [x |]; [| tauto].
  destruct ((x =? 0)%float); destruct (is_nan x); simpl; split; auto; try discriminate.
  intros [H | H]; discriminate.
Qed.

Lemma missing_iff_blank (req : Req.body) :
  match JS.truthy_str (Req.walletAddress req), JS.truthy_num (Req.usdSpent req),
        JS.truthy_num (Req.tokensReceived req), JS.truthy_str (Req.transactionId req) with
  | Some _, Some _, Some _, Some _ => ~ blank req
  | _, _, _, _ => blank req
  end.
Proof.
  unfold blank.
  pose proof (truthy_str_None (Req.walletAddress req)) as Hw.
  pose proof (truthy_num_None (Req.usdSpent req)) as Hu.
  pose proof (truthy_num_None (Req.tokensReceived req)) as Hk.
  pose proof (truthy_str_None (Req.transactionId req)) as Ht.
  destruct (JS.truthy_str (Req.walletAddress req)); [| tauto].
  destruct (JS.truthy_num (Req.usdSpent req)); [| tauto].
  destruct (JS.truthy_num (Req.tokensReceived req)); [| tauto].
  destruct (JS.truthy_str (Req.transactionId req)); [| tauto].
  intros [H | [H | [H | H]]];
    [apply Hw in H | apply Hu in H | apply Hk in H | apply Ht in H]; discriminate.
Qed.

(** C4 (as the code has it). The first step of [/purchase] is a presence
    check: when [walletAddress], [usdSpent], [tokensReceived] or
    [transactionId] is absent, or is the empty string, or is the number
    zero, the answer is 400 "Missing data" and nothing else has happened (no
    call to the ledger node, no write); otherwise the answer is another
    one.  A negative [usdSpent] or [tokensReceived] is not blank, so it is
    not rejected at this step. *)
Theorem C4_presence_check (e : env) (req : Req.body) (w : world) :
  (blank req -> handle (post_purchase e req) w = (Some Rejected_missing, w)) /\
  (~ blank req -> fst (handle (post_purchase e req) w) <> Some Rejected_missing) /\
  (forall x : float, (x <? 0)%float = true -> ~ blank_num (Some x)).
Proof.
  pose proof (missing_iff_blank req) as B.
  rewrite post_purchase_paths.
  split; [| split].
  - intros Hb.
    presence req reflexivity. contradiction.
  - intros Hb.
    presence req contradiction.
    destruct (negb _); [discriminate |].
    destruct (find _ _); [discriminate |].
    cbv zeta. destruct (resolve _ _) as [[id u] |]; [| discriminate].
    destruct (is_nan _); discriminate.
  - intros x Hx Hb. apply negative_is_truthy in Hx.
    apply truthy_num_None in Hb. simpl in Hb. rewrite Hx in Hb. discriminate.
Qed.

(** A purchase of minus one hundred dollars passes the presence check, is
    confirmed and is recorded. *)
Lemma C4_negative_amount_recorded :
  Req.usdSpent (Sample.buy "alice" "sig1" (-100) None) = Some (-100)%float /\
  ((-100) <=? 0)%float = true /\
  handle (post_purchase Sample.online (Sample.buy "alice" "sig1" (-100) None)) Sample.store
  = (Some Recorded,
     World [Purchase.Build (Some "alice") (-100) 11750 "sig1" None]
           [Sample.carol] ["sig1"]).
Proof. repeat split. Qed.

(* ------------------------------------------------------------------------- *)
(** ** The verifier and the claimed amount *)

(** C7 (as the code has it). The verifier does not look at the claimed
    amount: its verdict is the same for every amount, and it confirms
    exactly when the ledger node returns the transaction, the claimed wallet
    is a key and is the transaction's first account key, and the presale
    wallet is a key and is among the transaction's account keys. *)
Theorem C7_verdict_ignores_claimed_amount
    (e : env) (txSignature fromWallet : string) (a a' : float) (w : world) :
  validateSignatureOnChain e txSignature fromWallet a w
  = validateSignatureOnChain e txSignature fromWallet a' w
  /\
  (fst (validateSignatureOnChain e txSignature fromWallet a w) = Normal true <->
   exists key0 rest,
     getTransaction e txSignature = RpcTx (key0 :: rest) /\
     valid_key e fromWallet = true /\
     key0 = fromWallet /\
     valid_key e (JS.or_str (PRESALE_WALLET e) default_presale_wallet) = true /\
     In (JS.or_str (PRESALE_WALLET e) default_presale_wallet) (key0 :: rest)).
Proof.
  split; [reflexivity |].
  rewrite validateSignatureOnChain_returns. unfold confirmed, fst.
  split.
  - intros H. destruct (getTransaction e txSignature) as [| | [| key0 rest]];
      try discriminate.
    injection H as H.
    apply andb_prop in H as [H H4]. apply andb_prop in H as [H H3].
    apply andb_prop in H as [H1 H2].
    exists key0, rest. repeat split; auto.
    + now apply String.eqb_eq.
    + change (existsb (fun k => k =? JS.or_str (PRESALE_WALLET e) default_presale_wallet)
                      (key0 :: rest) = true) in H4.
      apply existsb_exists in H4 as (k & Hin & Hk).
      apply String.eqb_eq in Hk. now subst k.
  - intros (key0 & rest & -> & H1 & H2 & H3 & H4).
    rewrite H1, H3. subst key0. rewrite String.eqb_refl. f_equal.
    change (existsb (fun k => k =? JS.or_str (PRESALE_WALLET e) default_presale_wallet)
                    (fromWallet :: rest) = true).
    apply existsb_exists. eexists; split; [exact H4 | apply String.eqb_refl].
Qed.

(** A claimed amount of minus one hundred is confirmed. *)
Lemma C7_negative_amount_confirmed :
  ((-100) <=? 0)%float = true /\
  validateSignatureOnChain Sample.online "sig1" "alice" (-100) Sample.store
  = (Normal true, logged "sig1" Sample.store).
Proof. split; reflexivity. Qed.

(* ------------------------------------------------------------------------- *)
(** ** The answer when the ledger node cannot be reached *)

(** C3. When the ledger node cannot be reached the purchase is not stored
    and no account changes, but the answer is the one given for a
    transaction the node does not know, 400 "Invalid or fake transaction.":
    "Unable to validate transaction." is never answered, whatever the
    request and the surroundings. *)
Theorem C3_unreachable_node_answered_as_invalid :
  handle (post_purchase Sample.offline (Sample.buy "alice" "sig1" 100 (Some "REF7")))
         Sample.store
  = (Some Rejected_invalid, logged "sig1" Sample.store)
  /\
  handle (post_purchase Sample.online (Sample.buy "alice" "sig9" 100 (Some "REF7")))
         Sample.store
  = (Some Rejected_invalid, logged "sig9" Sample.store)
  /\
  Rejected_invalid <> Rejected_unable
  /\
  forall (e : env) (req : Req.body) (w : world),
    In (fst (handle (post_purchase e req) w))
       [Some Rejected_missing; Some Rejected_invalid; Some Duplicate; Some Recorded; None].
Proof.
  split; [reflexivity |]. split; [reflexivity |]. split; [discriminate |].
  apply post_purchase_answers.
Qed.

(* ------------------------------------------------------------------------- *)
(** ** Requests in flight together *)

(** C1. The duplicate check is a [findOne] followed, after an [await], by an
    unconditional [save]: two [/purchase] requests carrying the same
    transaction, in flight together, both find no document, both save, and
    both are answered [Recorded]; two documents are then stored under the
    one transaction id.  Served one after the other, the same two requests
    are answered [Recorded] and [Duplicate] and leave one document. *)
Theorem C1_same_transaction_stored_twice :
  interleave Sample.online [0; 1; 0; 1; 0; 1]
             [AtStart (Sample.buy "alice" "sig1" 100 None);
              AtStart (Sample.buy "alice" "sig1" 100 None)]
             Sample.store
  = ([Finished (Some Recorded); Finished (Some Recorded)],
     World [Purchase.Build (Some "alice") 100 11750 "sig1" None;
            Purchase.Build (Some "alice") 100 11750 "sig1" None]
           [Sample.carol] ["sig1"; "sig1"])
  /\
  List.length
    (stored_under "sig1"
       (snd (interleave Sample.online [0; 1; 0; 1; 0; 1]
                        [AtStart (Sample.buy "alice" "sig1" 100 None);
                         AtStart (Sample.buy "alice" "sig1" 100 None)]
                        Sample.store))) = 2
  /\
  serve_all [(Sample.online, POST_purchase (Sample.buy "alice" "sig1" 100 None));
             (Sample.online, POST_purchase (Sample.buy "alice" "sig1" 100 None))]
            Sample.store
  = ([Some Recorded; Some Duplicate],
     World [Purchase.Build (Some "alice") 100 11750 "sig1" None]
           [Sample.carol] ["sig1"; "sig1"]).
Proof. repeat split. Qed.

(** C6. The referral credit reads the account, adds the bonus in the
    handler and writes the result back: of two purchases in flight together
    that credit the same code, each worth a bonus of 5, only one bonus is
    left in the account.  Served one after the other they leave 10. *)
Theorem C6_concurrent_credit_lost :
  (0.05 * 100 + 0.05 * 100)%float = 10%float
  /\
  interleave Sample.online [0; 1; 0; 1; 0; 1; 0; 1; 0; 1]
             [AtStart (Sample.buy "alice" "sig1" 100 (Some "REF7"));
              AtStart (Sample.buy "bob" "sig2" 100 (Some "REF7"))]
             Sample.store
  = ([Finished (Some Recorded); Finished (Some Recorded)],
     World [Purchase.Build (Some "alice") 100 11750 "sig1" (Some "REF7");
            Purchase.Build (Some "bob") 100 11750 "sig2" (Some "REF7")]
           [User.Build "carol" (Some "REF7") 5] ["sig1"; "sig2"])
  /\
  serve_all [(Sample.online, POST_purchase (Sample.buy "alice" "sig1" 100 (Some "REF7")));
             (Sample.online, POST_purchase (Sample.buy "bob" "sig2" 100 (Some "REF7")))]
            Sample.store
  = ([Some Recorded; Some Recorded],
     World [Purchase.Build (Some "alice") 100 11750 "sig1" (Some "REF7");
            Purchase.Build (Some "bob") 100 11750 "sig2" (Some "REF7")]
           [User.Build "carol" (Some "REF7") 10] ["sig1"; "sig2"]).
Proof. repeat split. Qed.

(* ------------------------------------------------------------------------- *)
(** ** The raised amount *)

Lemma for_of_app {A} (f : A -> M unit) (l1 l2 : list A) (w : world) :
  for_of (l1 ++ l2) f w = (for_of l1 f ;;; for_of l2 f) w.
Proof.
  revert w. induction l1 as [| x l1 IH]; intros w; simpl.
  - reflexivity.
  - unfold bind in *. destruct (f x w) as [[[] | err] w1]; [| reflexivity].
    apply IH.
Qed.


(** [GET /raised-amount] reads only: whatever it answers, both collections
    and the log of node calls are as before. *)
Lemma get_raised_amount_reads (e : env) (w : world) :
  snd (handle (get_raised_amount e) w) = w.
Proof.
  unfold handle, get_raised_amount, try_catch, bind, Purchase_aggregate_totalUSD.
  destruct (purchases w); reflexivity.
Qed.

Lemma get_raised_amount_answer (e : env) (w : world) :
  handle (get_raised_amount e) w =
  (Some (res_json (JTotalUSD match purchases w with
                             | [] => 0%float
                             | _ :: _ => db_sum e (map Purchase.usdSpent (purchases w))
                             end)), w).
Proof.
  unfold handle, get_raised_amount, try_catch, bind, Purchase_aggregate_totalUSD.
  destruct (purchases w); reflexivity.
Qed.




(* ------------------------------------------------------------------------- *)
(** ** The webhook *)

(** [w'] has the accounts of [w] and its purchases, followed by documents
    that satisfy [P]. *)
Definition extends (P : Purchase.doc -> Prop) (w w' : world) : Prop :=
  users w' = users w /\
  exists added, purchases w' = purchases w ++ added /\ Forall P added.

Lemma extends_refl (P : Purchase.doc -> Prop) (w : world) : extends P w w.
Proof. split; [reflexivity |]. exists []. now rewrite app_nil_r. Qed.

Lemma extends_trans (P : Purchase.doc -> Prop) (a b c : world) :
  extends P a b -> extends P b c -> extends P a c.
Proof.
  intros (Hu1 & l1 & Hp1 & F1) (Hu2 & l2 & Hp2 & F2). split; [congruence |].
  exists (l1 ++ l2). split.
  - rewrite Hp2, Hp1, app_assoc. reflexivity.
  - apply Forall_app. auto.
Qed.

Lemma for_of_extends {A} (P : Purchase.doc -> Prop) (f : A -> M unit) (l : list A) :
  (forall x, In x l -> forall w, extends P w (snd (f x w))) ->
  forall w, extends P w (snd (for_of l f w)).
Proof.
  induction l as [| x l IH]; intros H w; simpl.
  - apply extends_refl.
  - unfold bind. pose proof (H x (or_introl eq_refl) w) as Hx.
    destruct (f x w) as [[[] | err] w1]; simpl in *; [| assumption].
    eapply extends_trans; [exact Hx |].
    apply IH. intros y Hy. apply H. now right.
Qed.

(** A stored document that comes from an instruction of the batch: no
    referral code, and the amounts computed from the instruction's parsed
    amount. *)
Definition from_webhook (e : env) (transactions : list Hook.tx) (p : Purchase.doc) : Prop :=
  exists tx l inst info,
    In tx transactions /\ Hook.instructions tx = Some l /\ In inst l /\
    Hook.parsed_info inst = Some info /\
    JS.strict_eq (Hook.destination info) (PRESALE_WALLET e) = true /\
    Purchase.transactionId p = Hook.signature tx /\
    Purchase.referralCodeUsed p = None /\
    Purchase.usdSpent p = (JS.parseFloat (Hook.amount info) / 1e6)%float /\
    Purchase.tokensReceived p = ((JS.parseFloat (Hook.amount info) / 1e6) / 0.00851)%float.

(** One batch, in given surroundings. *)
Section Batch.

Variable e : env.
Variable transactions : list Hook.tx.

Lemma webhook_instruction_extends
    (tx : Hook.tx) (l : list Hook.instruction) (inst : Hook.instruction) (w : world) :
  In tx transactions -> Hook.instructions tx = Some l -> In inst l ->
  extends (from_webhook e transactions) w (snd (webhook_instruction e tx inst w)).
Proof.
  intros Htx Hl Hinst. unfold webhook_instruction.
  destruct (Hook.parsed_info inst) as [info |] eqn:Ei; [| apply extends_refl].
  destruct (JS.strict_eq (Hook.destination info) (PRESALE_WALLET e)) eqn:Ed;
    [| apply extends_refl].
  unfold bind at 1.
  destruct (Hook.signers tx) as [signers |]; [| apply extends_refl].
  unfold ret at 1. unfold bind, Purchase_findOne.
  destruct (find _ (purchases w)); [apply extends_refl |].
  unfold Purchase_save. destruct (_ || _); [apply extends_refl |].
  split; [reflexivity |]. eexists. split; [reflexivity |].
  constructor; [| constructor].
  exists tx, l, inst, info. simpl. repeat split; auto.
Qed.

Lemma webhook_tx_extends (tx : Hook.tx) (w : world) :
  In tx transactions ->
  extends (from_webhook e transactions) w (snd (webhook_tx e tx w)).
Proof.
  intros Htx. unfold webhook_tx.
  destruct (Hook.instructions tx) as [l |] eqn:El; [| apply extends_refl].
  apply for_of_extends. intros inst Hinst v.
  now apply webhook_instruction_extends with (l := l).
Qed.

Lemma post_webhook_world (w : world) :
  snd (handle (post_webhook e transactions) w) = snd (for_of transactions (webhook_tx e) w).
Proof.
  unfold handle, post_webhook, try_catch, bind.
  destruct (for_of transactions (webhook_tx e) w) as [[[] | err] w1]; reflexivity.
Qed.

(** C10. The webhook leaves every account as it was, and every purchase it
    stores comes after those already stored, has no [referralCodeUsed], and
    has [usdSpent = parseFloat(amount) / 1e6] and
    [tokensReceived = (parseFloat(amount) / 1e6) / 0.00851] for the parsed
    amount of a matching instruction of the batch. *)
Theorem C10_webhook_touches_no_account (w : world) :
  users (snd (handle (post_webhook e transactions) w)) = users w /\
  exists added,
    purchases (snd (handle (post_webhook e transactions) w)) = purchases w ++ added /\
    Forall (from_webhook e transactions) added.
Proof.
  rewrite post_webhook_world.
  apply for_of_extends.
  intros tx Htx v. now apply webhook_tx_extends.
Qed.

End Batch.

(** An instruction that the webhook passes over: nothing parsed, or a
    destination other than the presale wallet. *)
Definition passed_over (e : env) (inst : Hook.instruction) : bool :=
  match Hook.parsed_info inst with
  | Some info => negb (JS.strict_eq (Hook.destination info) (PRESALE_WALLET e))
  | None => true
  end.

(** A record with no instruction for the presale wallet. *)
Definition no_match (e : env) (tx : Hook.tx) : bool :=
  match Hook.instructions tx with
  | Some l => forallb (passed_over e) l
  | None => true
  end.

Lemma webhook_tx_no_match (e : env) (tx : Hook.tx) (w : world) :
  no_match e tx = true -> webhook_tx e tx w = (Normal tt, w).
Proof.
  unfold no_match, webhook_tx.
  destruct (Hook.instructions tx) as [l |]; [| reflexivity].
  induction l as [| inst l IH]; simpl; [reflexivity |].
  intros H. apply andb_prop in H as [Hi Hl].
  unfold bind. unfold webhook_instruction, passed_over in *.
  destruct (Hook.parsed_info inst) as [info |].
  - apply negb_true_iff in Hi. rewrite Hi. simpl. now apply IH.
  - simpl. now apply IH.
Qed.

Lemma for_of_skips_no_match (e : env) (before after : list Hook.tx) (tx : Hook.tx)
    (w : world) :
  no_match e tx = true ->
  for_of (before ++ tx :: after) (webhook_tx e) w
  = for_of (before ++ after) (webhook_tx e) w.
Proof.
  intros H. revert w. induction before as [| x before IH]; intros w; simpl; unfold bind.
  - now rewrite (webhook_tx_no_match e tx w H).
  - destruct (webhook_tx e x w) as [[[] | err] w1]; [apply IH | reflexivity].
Qed.

(** C9 (as the code has it). A record with no instruction for the presale
    wallet stores nothing and raises nothing, and the batch goes on as if
    the record were not there.  The whole loop is inside one [try]: when the
    handling of a record throws, the records after it are not handled, what
    was stored before stays stored, and the answer is 500; the answer is 200
    when no record throws. *)
Theorem C9_webhook_batch (e : env) (before after : list Hook.tx) (tx : Hook.tx) (w : world) :
  (no_match e tx = true ->
   webhook_tx e tx w = (Normal tt, w) /\
   handle (post_webhook e (before ++ tx :: after)) w
   = handle (post_webhook e (before ++ after)) w)
  /\
  (forall (w1 w2 : world) (err : exn),
      for_of before (webhook_tx e) w = (Normal tt, w1) ->
      webhook_tx e tx w1 = (Throw err, w2) ->
      handle (post_webhook e (before ++ tx :: after)) w = (Some Webhook_failed, w2))
  /\
  (forall w1 : world,
      for_of before (webhook_tx e) w = (Normal tt, w1) ->
      handle (post_webhook e before) w = (Some Webhook_processed, w1)).
Proof.
  split; [| split].
  - intros H. split; [now apply webhook_tx_no_match |].
    unfold handle, post_webhook, try_catch, bind.
    now rewrite for_of_skips_no_match.
  - intros w1 w2 err Hb Ht.
    unfold handle, post_webhook, try_catch. unfold bind at 1.
    rewrite for_of_app. unfold bind at 1. rewrite Hb.
    simpl for_of. unfold bind at 1. rewrite Ht. reflexivity.
  - intros w1 Hb.
    unfold handle, post_webhook, try_catch, bind. rewrite Hb. reflexivity.
Qed.

(** A batch of two payments to the presale wallet, the first without
    [signers]: the second one, which on its own is stored, is never
    handled, and the batch is answered 500. *)
Lemma C9_failed_record_stops_the_batch :
  handle (post_webhook Sample.online [Sample.unsigned_tx; Sample.signed_tx]) Sample.store
  = (Some Webhook_failed, Sample.store)
  /\
  handle (post_webhook Sample.online [Sample.signed_tx]) Sample.store
  = (Some Webhook_processed,
     World [Purchase.Build (Some "bob") 2.5 (2.5 / 0.00851) "sig2" None]
           [Sample.carol] []).
Proof. split; reflexivity. Qed.

(* ------------------------------------------------------------------------- *)
(** ** Referral earnings across requests *)

(** The accounts after [GET /user]: as before, or with one new account
    whose earnings are 0. *)
Lemma get_user_users (walletAddress : string) (random : nat) (w : world) :
  users (snd (handle (get_user walletAddress random) w)) = users w \/
  users (snd (handle (get_user walletAddress random) w))
  = users w ++ [User.Build walletAddress (Some ("REF" ++ JS.of_nat random)%string) 0].
Proof.
  unfold handle, get_user, try_catch, bind, User_findOne_walletAddress, User_save_new, ret.
  destruct (find_indexed _ (users w)) as [[id u] |]; [left; reflexivity |].
  simpl.
  destruct (existsb _ (users w)); [left; reflexivity |].
  destruct (existsb _ (users w)); [left; reflexivity |].
  right; reflexivity.
Qed.

Lemma post_webhook_users (e : env) (transactions : list Hook.tx) (w : world) :
  users (snd (handle (post_webhook e transactions) w)) = users w.
Proof.
  rewrite post_webhook_world.
  apply (@for_of_extends _ (from_webhook e transactions)).
  intros tx Htx v. now apply webhook_tx_extends.
Qed.

(** What one request does to the account at position [i]. *)
Inductive account_step (e : env) (r : request) (w : world) (i : nat) (u u' : User.doc)
    : Prop :=
| Untouched : u' = u -> account_step e r w i u u'
| Credited (req : Req.body) (A : float) :
    r = POST_purchase req ->
    Req.usdSpent req = Some A ->
    resolve (Req.referralCode req) (users w) = Some (i, u) ->
    fst (serve e r w) = Some Recorded ->
    u' = User.set_referralEarnings u (User.referralEarnings u + 0.05 * A)%float ->
    account_step e r w i u u'.

(** Whatever the request: an account that exists before it exists after
    it, at the same place, either untouched or, when the request is a
    recorded [/purchase] whose referral code resolves to it, with
    [referralEarnings] set to its former value plus [0.05 * usdSpent]; and
    an account that the request creates has [referralEarnings = 0]. *)
Lemma serve_account_step (e : env) (r : request) (w : world) :
  (forall i u, nth_error (users w) i = Some u ->
     exists u', nth_error (users (snd (serve e r w))) i = Some u' /\
                account_step e r w i u u')
  /\
  (forall i u', nth_error (users w) i = None ->
     nth_error (users (snd (serve e r w))) i = Some u' ->
     User.referralEarnings u' = 0%float).
Proof.
  assert (Same : users (snd (serve e r w)) = users w ->
          (forall i u, nth_error (users w) i = Some u ->
             exists u', nth_error (users (snd (serve e r w))) i = Some u' /\
                        account_step e r w i u u')
          /\
          (forall i u', nth_error (users w) i = None ->
             nth_error (users (snd (serve e r w))) i = Some u' ->
             User.referralEarnings u' = 0%float)).
  { intros ->. split.
    - intros i u H. exists u. split; [assumption | now constructor].
    - intros i u' H1 H2. congruence. }
  destruct r as [| walletAddress random | req | walletAddress | | transactions].
  - apply Same. simpl. unfold handle, get_raised_amount, try_catch, bind,
      Purchase_aggregate_totalUSD. destruct (purchases w); reflexivity.
  - destruct (get_user_users walletAddress random w) as [H | H]; [now apply Same |].
    simpl serve. rewrite H. split.
    + intros i u Hi. exists u. split; [| now constructor].
      rewrite nth_error_app1; [assumption |]. apply nth_error_Some. congruence.
    + intros i u' H1 H2. apply nth_error_None in H1.
      rewrite nth_error_app2 in H2 by assumption.
      destruct (i - List.length (users w)) as [| k]; simpl in H2.
      * injection H2 as <-. reflexivity.
      * destruct k; discriminate.
  - pose proof (post_purchase_paths e req w) as P.
    presence req ltac:(apply Same; simpl; now rewrite P).
    destruct (negb _); [apply Same; simpl; now rewrite P |].
    destruct (find _ (purchases w)); [apply Same; simpl; now rewrite P |].
    cbv zeta in P.
    destruct (resolve (Req.referralCode req) (users w)) as [[id u0] |] eqn:R;
      [| apply Same; simpl; now rewrite P].
    destruct (is_nan _); [apply Same; simpl; now rewrite P |].
    simpl serve. rewrite P. simpl snd. simpl users. split.
    + intros i u Hi. destruct (Nat.eq_dec id i) as [-> | N].
      * assert (u0 = u) as ->.
        { unfold resolve in R.
          destruct (JS.truthy_str (Req.referralCode req)); [| discriminate].
          apply find_indexed_nth_error in R as [R _]. congruence. }
        eexists. split.
        -- rewrite nth_error_update_at_same, Hi. reflexivity.
        -- apply truthy_num_Some in Eu as [Eu _].
           eapply Credited; eauto. simpl. now rewrite P.
      * exists u. split; [| now constructor].
        rewrite nth_error_update_at_other by assumption. assumption.
    + intros i u' H1 H2. exfalso.
      apply nth_error_None in H1.
      assert (H3 : nth_error (update_at id
                     (fun v => User.set_referralEarnings v
                                 (User.referralEarnings u0 + 0.05 * usdSpent)%float)
                     (users w)) i <> None) by congruence.
      apply nth_error_Some in H3. rewrite length_update_at in H3. lia.
  - apply Same. reflexivity.
  - apply Same. reflexivity.
  - apply Same. simpl. apply post_webhook_users.
Qed.

(** The amount of a request is not negative: it is not a [/purchase], or
    its [usdSpent] is absent or at least 0. *)
Definition amount_nonneg (r : request) : Prop :=
  match r with
  | POST_purchase req =>
      match Req.usdSpent req with
      | Some A => (0 <=? A)%float = true
      | None => True
      end
  | _ => True
  end.

(** No account of [w] has negative (or [NaN]) earnings. *)
Definition earnings_nonneg (w : world) : Prop :=
  forall i u, nth_error (users w) i = Some u -> (0 <=? User.referralEarnings u)%float = true.

(** Every account of [w] is in [w'], at the same place, with earnings that
    are not lower. *)
Definition earnings_grow (w w' : world) : Prop :=
  forall i u, nth_error (users w) i = Some u ->
    exists u', nth_error (users w') i = Some u' /\
               (User.referralEarnings u <=? User.referralEarnings u')%float = true.

Lemma serve_earnings (e : env) (r : request) (w : world) :
  amount_nonneg r -> earnings_nonneg w ->
  earnings_nonneg (snd (serve e r w)) /\ earnings_grow w (snd (serve e r w)).
Proof.
  intros Ha Hw. destruct (serve_account_step e r w) as [Hold Hnew].
  assert (G : earnings_grow w (snd (serve e r w))).
  { intros i u Hi. destruct (Hold i u Hi) as (u' & Hi' & S). exists u'. split; [assumption |].
    pose proof (Hw i u Hi) as Hu.
    destruct S as [-> | req A -> HA _ _ ->].
    - now apply Binary64.leb_refl_nonneg.
    - simpl in Ha. rewrite HA in Ha. simpl.
      apply Binary64.add_nonneg_ge; [assumption | now apply Binary64.bonus_nonneg]. }
  split; [| assumption].
  intros i u' Hi'. destruct (nth_error (users w) i) as [u |] eqn:Hi.
  - destruct (G i u Hi) as (u'' & Hi'' & Hle).
    rewrite Hi' in Hi''. injection Hi'' as <-.
    eapply Binary64.leb_trans; [apply (Hw i u Hi) | exact Hle].
  - rewrite (Hnew i u' Hi Hi'). reflexivity.
Qed.

(** C5 (as the code has it). Over every sequence of requests to any
    endpoint, served one after the other, in which no [/purchase] carries a
    negative [usdSpent]: when no account starts with negative earnings, none
    has negative earnings at the end, and every account that was there at
    the start is there at the end with earnings that are not lower. *)
Theorem C5_earnings_nonneg_and_growing (rs : list (env * request)) (w : world) :
  Forall (fun er => amount_nonneg (snd er)) rs ->
  earnings_nonneg w ->
  earnings_nonneg (snd (serve_all rs w)) /\ earnings_grow w (snd (serve_all rs w)).
Proof.
  intros Hrs. revert w. induction Hrs as [| [e r] rs Hr _ IH]; intros w Hw; simpl.
  - split; [assumption |]. intros i u Hi. exists u. split; [assumption |].
    apply Binary64.leb_refl_nonneg. now apply (Hw i).
  - destruct (@serve_earnings e r w Hr Hw) as [N1 G1].
    destruct (serve e r w) as [a w1]. simpl in N1, G1.
    destruct (IH w1 N1) as [N2 G2].
    destruct (serve_all rs w1) as [answers w2]. simpl in *.
    split; [assumption |].
    intros i u Hi. destruct (G1 i u Hi) as (u1 & Hi1 & L1).
    destruct (G2 i u1 Hi1) as (u2 & Hi2 & L2).
    exists u2. split; [assumption |]. eapply Binary64.leb_trans; eassumption.
Qed.

Lemma C5_earnings_nonneg_and_growing_witness :
  earnings_nonneg
    (snd (serve_all
            [(Sample.online, POST_purchase (Sample.buy "alice" "sig1" 100 (Some "REF7")));
             (Sample.online, GET_user "dave" 42);
             (Sample.online, POST_purchase (Sample.buy "bob" "sig2" 0.5 (Some "REF7")))]
            Sample.store))
  /\
  earnings_grow Sample.store
    (snd (serve_all
            [(Sample.online, POST_purchase (Sample.buy "alice" "sig1" 100 (Some "REF7")));
             (Sample.online, GET_user "dave" 42);
             (Sample.online, POST_purchase (Sample.buy "bob" "sig2" 0.5 (Some "REF7")))]
            Sample.store)).
Proof.
  apply C5_earnings_nonneg_and_growing.
  - repeat constructor.
  - intros [| [| i]] u H; simpl in H; try discriminate.
    injection H as <-. reflexivity.
Defined.

(** A purchase of minus one hundred dollars under carol's code takes her
    earnings from 0 to -5. *)
Lemma C5_negative_purchase_lowers_earnings :
  serve Sample.online (POST_purchase (Sample.buy "alice" "sig1" (-100) (Some "REF7")))
        Sample.store
  = (Some Recorded,
     World [Purchase.Build (Some "alice") (-100) 11750 "sig1" (Some "REF7")]
           [User.Build "carol" (Some "REF7") (-5)] ["sig1"])
  /\
  map User.referralEarnings (users Sample.store) = [0%float]
  /\
  ((-5) <? 0)%float = true.
Proof. repeat split. Qed.

(* ------------------------------------------------------------------------- *)
(** ** One purchase per transaction, for requests served in turn *)

(** No two stored purchases carry the same transaction id. *)
Definition transactions_unique (w : world) : Prop :=
  NoDup (map Purchase.transactionId (purchases w)).

Lemma find_none_not_in (transactionId : string) (l : list Purchase.doc) :
  find (fun p => Purchase.transactionId p =? transactionId) l = None ->
  ~ In transactionId (map Purchase.transactionId l).
Proof.
  induction l as [| p l IH]; simpl; [tauto |].
  destruct (String.eqb_spec (Purchase.transactionId p) transactionId) as [E | N];
    [discriminate |].
  intros H [H1 | H1]; [congruence | now apply IH].
Qed.

Lemma unique_after_insert (p : Purchase.doc) (l : list Purchase.doc) :
  NoDup (map Purchase.transactionId l) ->
  find (fun q => Purchase.transactionId q =? Purchase.transactionId p) l = None ->
  NoDup (map Purchase.transactionId (l ++ [p])).
Proof.
  intros Hl Hf. rewrite map_app. simpl.
  apply NoDup_app; [assumption | repeat constructor; simpl; tauto |].
  intros t Ht [<- | []]. revert Ht. now apply find_none_not_in.
Qed.

Lemma for_of_invariant {A} (I : world -> Prop) (f : A -> M unit) (l : list A) :
  (forall x w, I w -> I (snd (f x w))) ->
  forall w, I w -> I (snd (for_of l f w)).
Proof.
  intros Hf. induction l as [| x l IH]; intros w Hw; simpl; [assumption |].
  unfold bind. pose proof (Hf x w Hw) as Hx.
  destruct (f x w) as [[[] | err] w1]; simpl in *; auto.
Qed.

Lemma webhook_instruction_unique (e : env) (tx : Hook.tx) (inst : Hook.instruction)
    (w : world) :
  transactions_unique w -> transactions_unique (snd (webhook_instruction e tx inst w)).
Proof.
  intros Hw. unfold webhook_instruction.
  destruct (Hook.parsed_info inst) as [info |]; [| assumption].
  destruct (JS.strict_eq (Hook.destination info) (PRESALE_WALLET e)); [| assumption].
  unfold bind at 1.
  destruct (Hook.signers tx) as [signers |]; [| assumption].
  unfold ret at 1. unfold bind, Purchase_findOne.
  destruct (find _ (purchases w)) eqn:Ef; [assumption |].
  unfold Purchase_save. destruct (_ || _); [assumption |].
  unfold transactions_unique. simpl. now apply unique_after_insert.
Qed.

Lemma serve_unique (e : env) (r : request) (w : world) :
  transactions_unique w -> transactions_unique (snd (serve e r w)).
Proof.
  intros Hw.
  destruct r as [| walletAddress random | req | walletAddress | | transactions]; simpl.
  - unfold handle, get_raised_amount, try_catch, bind, Purchase_aggregate_totalUSD.
    destruct (purchases w); exact Hw.
  - unfold handle, get_user, try_catch, bind, User_findOne_walletAddress, User_save_new, ret.
    destruct (find_indexed _ (users w)) as [[id u] |]; [assumption |].
    simpl.
    destruct (existsb _ (users w)); [assumption |].
    destruct (existsb _ (users w)); assumption.
  - rewrite post_purchase_paths.
    presence req assumption.
    destruct (negb _); [assumption |].
    destruct (find _ (purchases w)) eqn:Ef; [assumption |].
    cbv zeta.
    assert (U : NoDup (map Purchase.transactionId
                           (purchases w ++
                            [purchase_of walletAddress usdSpent tokensReceived transactionId
                                         (Req.referralCode req)]))).
    { now apply unique_after_insert. }
    destruct (resolve _ _) as [[id u] |]; [| exact U].
    destruct (is_nan _); exact U.
  - assumption.
  - assumption.
  - rewrite post_webhook_world.
    apply for_of_invariant; [| assumption].
    intros tx v Hv. unfold webhook_tx.
    apply for_of_invariant; [| assumption].
    intros inst v' Hv'. now apply webhook_instruction_unique.
Qed.

(** Requests served one after the other, to any endpoint, never leave two
    purchases under one transaction id. *)
Theorem sequential_transactions_unique (rs : list (env * request)) (w : world) :
  transactions_unique w -> transactions_unique (snd (serve_all rs w)).
Proof.
  revert w. induction rs as [| [e r] rs IH]; intros w Hw; simpl; [assumption |].
  pose proof (serve_unique e r Hw) as H1.
  destruct (serve e r w) as [a w1]. simpl in H1.
  pose proof (IH w1 H1) as H2.
  destruct (serve_all rs w1) as [answers w2]. exact H2.
Qed.

Lemma sequential_transactions_unique_witness :
  transactions_unique
    (snd (serve_all
            [(Sample.online, POST_purchase (Sample.buy "alice" "sig1" 100 None));
             (Sample.online, POST_webhook [Sample.signed_tx; Sample.signed_tx]);
             (Sample.online, POST_purchase (Sample.buy "alice" "sig1" 100 None));
             (Sample.online, POST_purchase (Sample.buy "bob" "sig2" 100 None))]
            Sample.store)).
Proof.
  apply sequential_transactions_unique. constructor.
Defined.

(* ------------------------------------------------------------------------- *)
(** ** What a recorded purchase means *)

Lemma confirmed_inv (e : env) (txSignature fromWallet : string) :
  confirmed e txSignature fromWallet = true ->
  exists rest,
    getTransaction e txSignature = RpcTx (fromWallet :: rest) /\
    valid_key e fromWallet = true /\
    valid_key e (JS.or_str (PRESALE_WALLET e) default_presale_wallet) = true /\
    In (JS.or_str (PRESALE_WALLET e) default_presale_wallet) (fromWallet :: rest).
Proof.
  unfold confirmed.
  destruct (getTransaction e txSignature) as [| | [| key0 rest]]; try discriminate.
  intros H.
  apply andb_prop in H as [H H4]. apply andb_prop in H as [H H3].
  apply andb_prop in H as [H1 H2]. apply String.eqb_eq in H2. subst key0.
  exists rest. repeat split; auto.
  apply existsb_exists in H4 as (k & Hin & Hk).
  apply String.eqb_eq in Hk. now subst k.
Qed.

(** The state in which a [/purchase] was answered [Recorded]. *)
Lemma recorded_inv (e : env) (req : Req.body) (w w' : world) :
  handle (post_purchase e req) w = (Some Recorded, w') ->
  exists walletAddress usdSpent tokensReceived transactionId,
    JS.truthy_str (Req.walletAddress req) = Some walletAddress /\
    JS.truthy_num (Req.usdSpent req) = Some usdSpent /\
    JS.truthy_num (Req.tokensReceived req) = Some tokensReceived /\
    JS.truthy_str (Req.transactionId req) = Some transactionId /\
    confirmed e transactionId walletAddress = true /\
    find (fun p => Purchase.transactionId p =? transactionId) (purchases w) = None /\
    purchases w' = purchases w ++ [purchase_of walletAddress usdSpent tokensReceived
                                               transactionId (Req.referralCode req)] /\
    rpc_log w' = rpc_log w ++ [transactionId].
Proof.
  rewrite post_purchase_paths. presence req discriminate.
  destruct (confirmed e transactionId walletAddress) eqn:Ec; [| discriminate].
  simpl negb. cbv iota.
  destruct (find _ (purchases w)) eqn:Ef; [discriminate |].
  cbv zeta. intros H.
  exists walletAddress, usdSpent, tokensReceived, transactionId.
  repeat (split; [reflexivity |]).
  destruct (resolve _ _) as [[id u] |].
  - destruct (is_nan _); [discriminate |]. injection H as <-. simpl. auto.
  - injection H as <-. simpl. auto.
Qed.

(** Every recorded purchase was confirmed by the ledger node when it was
    recorded, and its transaction id was new: the node returned the
    transaction, the paying wallet was its first account key, the presale
    wallet was among its keys, and no stored purchase carried the id. *)
Theorem recorded_means_confirmed_and_new (e : env) (req : Req.body) (w w' : world) :
  handle (post_purchase e req) w = (Some Recorded, w') ->
  exists walletAddress transactionId rest,
    Req.walletAddress req = Some walletAddress /\
    Req.transactionId req = Some transactionId /\
    getTransaction e transactionId = RpcTx (walletAddress :: rest) /\
    In (JS.or_str (PRESALE_WALLET e) default_presale_wallet) (walletAddress :: rest) /\
    ~ In transactionId (map Purchase.transactionId (purchases w)) /\
    In transactionId (map Purchase.transactionId (purchases w')).
Proof.
  intros H.
  destruct (recorded_inv e req w H)
    as (wa & usd & tok & tid & Hwa & _ & _ & Htid & Hc & Hf & Hp & _).
  apply confirmed_inv in Hc as (rest & Hg & _ & _ & Hin).
  apply truthy_str_Some in Hwa as [Hwa _]. apply truthy_str_Some in Htid as [Htid _].
  exists wa, tid, rest. repeat split; auto.
  - now apply find_none_not_in.
  - rewrite Hp, map_app. apply in_or_app. right. simpl. auto.
Qed.

Lemma recorded_means_confirmed_and_new_witness :
  exists walletAddress transactionId rest,
    Req.walletAddress (Sample.buy "alice" "sig1" 100 None) = Some walletAddress /\
    Req.transactionId (Sample.buy "alice" "sig1" 100 None) = Some transactionId /\
    getTransaction Sample.online transactionId = RpcTx (walletAddress :: rest) /\
    In (JS.or_str (PRESALE_WALLET Sample.online) default_presale_wallet)
       (walletAddress :: rest) /\
    ~ In transactionId (map Purchase.transactionId (purchases Sample.store)) /\
    In transactionId
       (map Purchase.transactionId
            (purchases (snd (handle (post_purchase Sample.online
                                                   (Sample.buy "alice" "sig1" 100 None))
                                    Sample.store)))).
Proof.
  exact (@recorded_means_confirmed_and_new Sample.online
           (Sample.buy "alice" "sig1" 100 None) Sample.store _ eq_refl).
Defined.

(* ------------------------------------------------------------------------- *)
(** ** Totals after a recorded purchase *)

Lemma sum_floats_snoc (l : list float) (x : float) :
  sum_floats (l ++ [x]) = (sum_floats l + x)%float.
Proof. unfold sum_floats. rewrite fold_left_app. reflexivity. Qed.






Lemma get_user_purchases_answer (walletAddress : string) (w : world) :
  handle (get_user_purchases walletAddress) w
  = (Some (res_json
             (JUserPurchases
                (sum_floats (map Purchase.usdSpent
                   (filter (fun p => JS.strict_eq (Purchase.walletAddress p)
                                                  (Some walletAddress)) (purchases w))))
                (sum_floats (map Purchase.tokensReceived
                   (filter (fun p => JS.strict_eq (Purchase.walletAddress p)
                                                  (Some walletAddress)) (purchases w)))))),
     w).
Proof. reflexivity. Qed.

Lemma filter_snoc {A} (f : A -> bool) (l : list A) (x : A) :
  filter f (l ++ [x]) = filter f l ++ (if f x then [x] else []).
Proof. rewrite filter_app. reflexivity. Qed.

(** A recorded purchase adds its [usdSpent] and [tokensReceived] to the
    totals that [GET /user-purchases] reports for the paying wallet, and
    leaves the totals of every other wallet as they were. *)
Theorem user_purchases_after_recorded (e : env) (req : Req.body) (w w' : world)
    (payer : string) (A T : float) :
  Req.walletAddress req = Some payer ->
  Req.usdSpent req = Some A ->
  Req.tokensReceived req = Some T ->
  handle (post_purchase e req) w = (Some Recorded, w') ->
  (exists invested tokens,
      handle (get_user_purchases payer) w
      = (Some (res_json (JUserPurchases invested tokens)), w) /\
      handle (get_user_purchases payer) w'
      = (Some (res_json (JUserPurchases (invested + A) (tokens + T))), w')) /\
  (forall other, other <> payer ->
      fst (handle (get_user_purchases other) w')
      = fst (handle (get_user_purchases other) w)).
Proof.
  intros Hpayer HA HT H.
  destruct (recorded_inv e req w H)
    as (wa & usd & tok & tid & Hw & Hu & Hk & _ & _ & _ & Hp & _).
  apply truthy_str_Some in Hw as [Hw _]. rewrite Hpayer in Hw. injection Hw as <-.
  apply truthy_num_Some in Hu as [Hu _]. rewrite HA in Hu. injection Hu as <-.
  apply truthy_num_Some in Hk as [Hk _]. rewrite HT in Hk. injection Hk as <-.
  split.
  - do 2 eexists. split; [apply get_user_purchases_answer |].
    rewrite get_user_purchases_answer, Hp, filter_snoc.
    unfold purchase_of at 1 3. cbn [Purchase.walletAddress JS.strict_eq].
    rewrite String.eqb_refl, !map_app. cbn [map].
    unfold purchase_of. cbn [Purchase.usdSpent Purchase.tokensReceived].
    now rewrite !sum_floats_snoc.
  - intros other Hother.
    rewrite !get_user_purchases_answer, Hp, filter_snoc.
    unfold purchase_of at 1 3. cbn [Purchase.walletAddress JS.strict_eq].
    destruct (String.eqb_spec payer other) as [E | _]; [congruence |].
    now rewrite !app_nil_r.
Qed.

Lemma user_purchases_after_recorded_witness :
  (exists invested tokens,
      handle (get_user_purchases "alice") Sample.store
      = (Some (res_json (JUserPurchases invested tokens)), Sample.store) /\
      handle (get_user_purchases "alice")
             (snd (handle (post_purchase Sample.online (Sample.buy "alice" "sig1" 100 None))
                          Sample.store))
      = (Some (res_json (JUserPurchases (invested + 100) (tokens + 11750))),
         snd (handle (post_purchase Sample.online (Sample.buy "alice" "sig1" 100 None))
                     Sample.store))) /\
  (forall other, other <> "alice" ->
      fst (handle (get_user_purchases other)
                  (snd (handle (post_purchase Sample.online
                                              (Sample.buy "alice" "sig1" 100 None))
                               Sample.store)))
      = fst (handle (get_user_purchases other) Sample.store)).
Proof.
  exact (@user_purchases_after_recorded Sample.online
           (Sample.buy "alice" "sig1" 100 None) Sample.store _ "alice" 100%float
           11750%float eq_refl eq_refl eq_refl eq_refl).
Defined.

(* ------------------------------------------------------------------------- *)
(** ** Calls to the ledger node *)

Lemma post_webhook_rpc_log (e : env) (transactions : list Hook.tx) (w : world) :
  rpc_log (snd (handle (post_webhook e transactions) w)) = rpc_log w.
Proof.
  rewrite post_webhook_world.
  apply (@for_of_invariant _ (fun v => rpc_log v = rpc_log w)); [| reflexivity].
  intros tx v Hv. unfold webhook_tx.
  apply (@for_of_invariant _ (fun v => rpc_log v = rpc_log w)); [| assumption].
  intros inst v' Hv'. unfold webhook_instruction.
  destruct (Hook.parsed_info inst) as [info |]; [| assumption].
  destruct (JS.strict_eq (Hook.destination info) (PRESALE_WALLET e)); [| assumption].
  unfold bind at 1.
  destruct (Hook.signers tx) as [signers |]; [| assumption].
  unfold ret at 1. unfold bind, Purchase_findOne.
  destruct (find _ (purchases v')); [assumption |].
  unfold Purchase_save. destruct (_ || _); assumption.
Qed.

(** The ledger node is called by [/purchase] alone, once per request that
    passes the presence check, for the submitted transaction id and before
    any write; the webhook and the read endpoints never call it. *)
Theorem ledger_node_calls (e : env) (r : request) (w : world) :
  match r with
  | POST_purchase req =>
      match JS.truthy_str (Req.walletAddress req), JS.truthy_num (Req.usdSpent req),
            JS.truthy_num (Req.tokensReceived req), JS.truthy_str (Req.transactionId req) with
      | Some _, Some _, Some _, Some transactionId =>
          rpc_log (snd (serve e r w)) = rpc_log w ++ [transactionId]
      | _, _, _, _ => rpc_log (snd (serve e r w)) = rpc_log w
      end
  | _ => rpc_log (snd (serve e r w)) = rpc_log w
  end.
Proof.
  destruct r as [| walletAddress random | req | walletAddress | | transactions].
  - simpl. now rewrite get_raised_amount_answer.
  - simpl. unfold handle, get_user, try_catch, bind, User_findOne_walletAddress,
      User_save_new, ret.
    destruct (find_indexed _ (users w)) as [[id u] |]; [reflexivity |].
    simpl.
    destruct (existsb _ (users w)); [reflexivity |].
    destruct (existsb _ (users w)); reflexivity.
  - simpl serve. rewrite post_purchase_paths.
    presence req reflexivity.
    destruct (negb _); [reflexivity |].
    destruct (find _ (purchases w)); [reflexivity |].
    cbv zeta. destruct (resolve _ _) as [[id u] |]; [| reflexivity].
    destruct (is_nan _); reflexivity.
  - reflexivity.
  - reflexivity.
  - simpl. apply post_webhook_rpc_log.
Qed.

(* ------------------------------------------------------------------------- *)
(** ** Accounts: lookup or create *)

Lemma find_from_existsb {A} (f : A -> bool) (l : list A) (k : nat) :
  match find_from f k l with Some _ => true | None => false end = existsb f l.
Proof.
  revert k. induction l as [| x l IH]; intros k; simpl; [reflexivity |].
  destruct (f x); simpl; auto.
Qed.

Lemma find_from_snoc {A} (f : A -> bool) (l : list A) (k : nat) (x : A) :
  find_from f k l = None -> f x = true ->
  find_from f k (l ++ [x]) = Some (k + List.length l, x).
Proof.
  revert k. induction l as [| y l IH]; intros k Hn Hx; simpl in *.
  - rewrite Hx. now rewrite Nat.add_0_r.
  - destruct (f y); [discriminate |].
    rewrite IH by assumption. f_equal. f_equal. lia.
Qed.

(** The referral code [GET /user] gives to a new account. *)
Definition new_code (random : nat) : string := ("REF" ++ JS.of_nat random)%string.
Arguments new_code : simpl never.

(** The body of the answer of [GET /user] for an account. *)
Definition user_info (u : User.doc) : json :=
  JUser (User.walletAddress u) (JS.truthy_str (User.referralCode u))
        (if JS.falsy_num (User.referralEarnings u) then 0%float
         else User.referralEarnings u).

(** [GET /user], path by path. *)
Lemma get_user_paths (walletAddress : string) (random : nat) (w : world) :
  handle (get_user walletAddress random) w =
  match find_indexed (fun u => User.walletAddress u =? walletAddress) (users w) with
  | Some (_, u) => (Some (res_json (user_info u)), w)
  | None =>
      if existsb (fun v => JS.strict_eq (User.referralCode v) (Some (new_code random)))
                 (users w)
      then (Some (Response 500 (JError "Failed to get user info")), w)
      else (Some (res_json (user_info (User.Build walletAddress (Some (new_code random)) 0))),
            World (purchases w)
                  (users w ++ [User.Build walletAddress (Some (new_code random)) 0])
                  (rpc_log w))
  end.
Proof.
  unfold handle, get_user, try_catch, bind, User_findOne_walletAddress, User_save_new, ret.
  change ("REF" ++ JS.of_nat random)%string with (new_code random).
  pose proof (find_from_existsb (fun u => User.walletAddress u =? walletAddress)
                                (users w) 0) as Hx.
  unfold find_indexed.
  destruct (find_from _ 0 (users w)) as [[id u] |]; [reflexivity |].
  simpl. rewrite <- Hx. clear Hx.
  destruct (existsb _ (users w)); reflexivity.
Qed.

(** Lookup or create is stable: once [GET /user] has answered 200 for a
    wallet, asking again gives the same answer and changes nothing,
    whatever number the second request draws. *)
Theorem get_user_again (walletAddress : string) (random random' : nat)
    (w w1 : world) (a : response) :
  handle (get_user walletAddress random) w = (Some a, w1) ->
  status a = 200 ->
  handle (get_user walletAddress random') w1 = (Some a, w1).
Proof.
  rewrite get_user_paths. intros H Hs.
  destruct (find_indexed _ (users w)) as [[id u] |] eqn:Ef.
  - injection H as <- <-. rewrite get_user_paths, Ef. reflexivity.
  - destruct (existsb _ (users w)).
    + injection H as <- <-. discriminate.
    + injection H as <- <-. rewrite get_user_paths. simpl users.
      unfold find_indexed in *.
      rewrite (find_from_snoc _ _ _ _ Ef); [reflexivity |].
      simpl. apply String.eqb_refl.
Qed.

Lemma get_user_again_witness :
  handle (get_user "dave" 7)
         (snd (handle (get_user "dave" 42) Sample.store))
  = (Some (res_json (JUser "dave" (Some "REF42") 0)),
     snd (handle (get_user "dave" 42) Sample.store)).
Proof.
  exact (@get_user_again "dave" 42 7 Sample.store _ _ eq_refl eq_refl).
Defined.

Lemma existsb_wallet_false (walletAddress : string) (l : list User.doc) :
  existsb (fun u => User.walletAddress u =? walletAddress) l = false ->
  ~ In walletAddress (map User.walletAddress l).
Proof.
  induction l as [| u l IH]; simpl; [tauto |].
  intros H. apply orb_false_iff in H as [H1 H2].
  apply String.eqb_neq in H1. intros [E | E]; [congruence | now apply IH].
Qed.

Lemma existsb_code_false (code : string) (l : list User.doc) :
  existsb (fun u => JS.strict_eq (User.referralCode u) (Some code)) l = false ->
  ~ In (Some code) (map User.referralCode l).
Proof.
  induction l as [| u l IH]; simpl; [tauto |].
  intros H. apply orb_false_iff in H as [H1 H2].
  intros [E | E]; [| now apply IH].
  rewrite E in H1. simpl in H1. now rewrite String.eqb_refl in H1.
Qed.

Lemma existsb_code_true (code : string) (l : list User.doc) :
  In (Some code) (map User.referralCode l) ->
  existsb (fun u => JS.strict_eq (User.referralCode u) (Some code)) l = true.
Proof.
  induction l as [| u l IH]; simpl; [tauto |].
  intros [E | E].
  - rewrite E. simpl. now rewrite String.eqb_refl.
  - rewrite IH by assumption. apply orb_true_r.
Qed.

(** [GET /user] for a wallet that has no account.  When the code it draws
    is free, the account is created with that code and earnings 0 and is
    answered; when another account already holds the code, the unique index
    refuses the insert: the answer is 500 and the wallet is left without an
    account. *)
Theorem get_user_new_wallet (walletAddress : string) (random : nat) (w : world) :
  ~ In walletAddress (map User.walletAddress (users w)) ->
  (~ In (Some (new_code random)) (map User.referralCode (users w)) ->
   handle (get_user walletAddress random) w
   = (Some (res_json (JUser walletAddress (Some (new_code random)) 0)),
      World (purchases w)
            (users w ++ [User.Build walletAddress (Some (new_code random)) 0])
            (rpc_log w)))
  /\
  (In (Some (new_code random)) (map User.referralCode (users w)) ->
   handle (get_user walletAddress random) w
   = (Some (Response 500 (JError "Failed to get user info")), w)).
Proof.
  intros Hw. rewrite get_user_paths.
  unfold find_indexed.
  destruct (find_from _ 0 (users w)) as [[id u] |] eqn:Ef.
  - exfalso. apply find_from_nth_error in Ef as (_ & Hn & Hf).
    apply String.eqb_eq in Hf. apply Hw. rewrite <- Hf.
    apply in_map. eapply nth_error_In; eassumption.
  - split.
    + intros Hc.
      destruct (existsb (fun v => JS.strict_eq (User.referralCode v)
                                                (Some (new_code random))) (users w)) eqn:Ex;
        [| reflexivity].
      exfalso. apply Hc. apply existsb_exists in Ex as (v & Hv & Hs).
      destruct (User.referralCode v) as [c |] eqn:Ec; simpl in Hs; [| discriminate].
      apply String.eqb_eq in Hs. subst c. rewrite <- Ec. now apply in_map.
    + intros Hc. now rewrite (existsb_code_true _ _ Hc).
Qed.

Lemma get_user_new_wallet_witness :
  (~ In (Some (new_code 7)) (map User.referralCode (users Sample.store)) ->
   handle (get_user "dave" 7) Sample.store
   = (Some (res_json (JUser "dave" (Some (new_code 7)) 0)),
      World (purchases Sample.store)
            (users Sample.store ++ [User.Build "dave" (Some (new_code 7)) 0])
            (rpc_log Sample.store)))
  /\
  (In (Some (new_code 7)) (map User.referralCode (users Sample.store)) ->
   handle (get_user "dave" 7) Sample.store
   = (Some (Response 500 (JError "Failed to get user info")), Sample.store)).
Proof.
  apply get_user_new_wallet.
  simpl. intros [H | []]. discriminate.
Defined.

(* ------------------------------------------------------------------------- *)
(** ** One account per wallet, one account per referral code *)

(** No two accounts share a wallet address, and no two share a referral
    code. *)
Definition accounts_unique (w : world) : Prop :=
  NoDup (map User.walletAddress (users w)) /\ NoDup (map User.referralCode (users w)).

Lemma map_update_at {A B} (f : A -> B) (g : A -> A) (i : nat) (l : list A) :
  (forall x, f (g x) = f x) -> map f (update_at i g l) = map f l.
Proof.
  intros H. revert i. induction l as [| x l IH]; intros [| i]; simpl;
    rewrite ?H, ?IH; reflexivity.
Qed.

Lemma NoDup_snoc {A} (l : list A) (x : A) : NoDup l -> ~ In x l -> NoDup (l ++ [x]).
Proof.
  intros Hl Hx. apply NoDup_app; [assumption | repeat constructor; simpl; tauto |].
  intros y Hy [<- | []]. contradiction.
Qed.

Lemma serve_accounts_unique (e : env) (r : request) (w : world) :
  accounts_unique w -> accounts_unique (snd (serve e r w)).
Proof.
  intros Hw.
  destruct r as [| walletAddress random | req | walletAddress | | transactions]; simpl serve.
  - now rewrite get_raised_amount_answer.
  - rewrite get_user_paths.
    pose proof (find_from_existsb (fun u => User.walletAddress u =? walletAddress)
                                  (users w) 0) as Hx.
    unfold find_indexed.
    destruct (find_from _ 0 (users w)) as [[id u] |]; [assumption |].
    destruct (existsb (fun v => JS.strict_eq (User.referralCode v)
                                             (Some (new_code random))) (users w)) eqn:Ec;
      [assumption |].
    destruct Hw as [H1 H2]. split; simpl; rewrite map_app; simpl; apply NoDup_snoc; auto.
    + apply existsb_wallet_false. now symmetry.
    + now apply existsb_code_false.
  - rewrite post_purchase_paths.
    presence req assumption.
    destruct (negb _); [assumption |].
    destruct (find _ (purchases w)); [assumption |].
    cbv zeta. destruct (resolve _ _) as [[id u] |]; [| assumption].
    destruct (is_nan _); [assumption |].
    destruct Hw as [H1 H2]. split; simpl; rewrite map_update_at; auto.
  - assumption.
  - assumption.
  - unfold accounts_unique. now rewrite post_webhook_users.
Qed.

(** Requests served one after the other, to any endpoint, never leave two
    accounts with the same wallet address or with the same referral code. *)
Theorem sequential_accounts_unique (rs : list (env * request)) (w : world) :
  accounts_unique w -> accounts_unique (snd (serve_all rs w)).
Proof.
  revert w. induction rs as [| [e r] rs IH]; intros w Hw; simpl; [assumption |].
  pose proof (serve_accounts_unique e r Hw) as H1.
  destruct (serve e r w) as [a w1]. simpl in H1.
  pose proof (IH w1 H1) as H2.
  destruct (serve_all rs w1) as [answers w2]. exact H2.
Qed.

Lemma sequential_accounts_unique_witness :
  accounts_unique
    (snd (serve_all
            [(Sample.online, GET_user "dave" 42);
             (Sample.online, GET_user "erin" 42);
             (Sample.online, GET_user "dave" 7);
             (Sample.online, POST_purchase (Sample.buy "alice" "sig1" 100 (Some "REF42")))]
            Sample.store)).
Proof.
  apply sequential_accounts_unique.
  split; simpl; repeat constructor; simpl; tauto.
Defined.

(* ------------------------------------------------------------------------- *)
(** ** The leaderboard *)

Module Binary64Order.

Local Unset Implicit Arguments.

(** Of two numbers, neither of them [NaN], the first is below the second
    or the second is at most the first. *)
Lemma SFltb_false_leb (x y : spec_float) :
  x <> S754_nan -> y <> S754_nan -> SFltb x y = false -> SFleb y x = true.
Proof.
  unfold SFltb, SFleb, SFcompare.
  destruct x as [sx | sx | | sx mx ex]; destruct y as [sy | sy | | sy my ey];
    try destruct sx; try destruct sy; intros Hx Hy;
    try congruence; try discriminate; try reflexivity;
    change (Pos.compare_cont Eq) with Pos.compare;
    destruct (Z.compare_spec ex ey); destruct (Z.compare_spec ey ex);
    try discriminate; try reflexivity; try lia; subst;
    destruct (Pos.compare_spec mx my); destruct (Pos.compare_spec my mx);
    simpl; try discriminate; try reflexivity; try lia.
Qed.

Lemma not_nan_spec (x : float) : is_nan x = false -> Prim2SF x <> S754_nan.
Proof.
  unfold is_nan. rewrite FloatAxioms.eqb_spec. intros H E. rewrite E in H. discriminate.
Qed.

Lemma ltb_false_leb (x y : float) :
  is_nan x = false -> is_nan y = false -> (x <? y)%float = false -> (y <=? x)%float = true.
Proof.
  intros Hx Hy. rewrite FloatAxioms.ltb_spec, FloatAxioms.leb_spec.
  apply SFltb_false_leb; now apply not_nan_spec.
Qed.

Lemma ltb_leb (x y : float) : (x <? y)%float = true -> (x <=? y)%float = true.
Proof.
  rewrite FloatAxioms.ltb_spec, FloatAxioms.leb_spec. unfold SFltb, SFleb.
  destruct (SFcompare (Prim2SF x) (Prim2SF y)) as [[| |] |]; congruence.
Qed.

End Binary64Order.

(** [a] may stand before [b] on the leaderboard: [b] has not earned more. *)
Definition ranks_before (a b : User.doc) : Prop :=
  (User.referralEarnings b <=? User.referralEarnings a)%float = true.

(** The earnings of an account are a number. *)
Definition earnings_defined (u : User.doc) : Prop :=
  is_nan (User.referralEarnings u) = false.

Lemma insert_desc_perm (u : User.doc) (l : list User.doc) :
  Permutation (insert_desc u l) (u :: l).
Proof.
  induction l as [| v l IH]; simpl; [reflexivity |].
  destruct (User.referralEarnings v <? User.referralEarnings u)%float; [reflexivity |].
  rewrite IH. apply perm_swap.
Qed.

Lemma insert_desc_sorted (u : User.doc) (l : list User.doc) :
  earnings_defined u -> Forall earnings_defined l ->
  StronglySorted ranks_before l -> StronglySorted ranks_before (insert_desc u l).
Proof.
  intros Hu Hl Hs. induction Hs as [| v l Hs IH Hv]; simpl.
  - repeat constructor.
  - inversion Hl as [| ? ? Dv Dl]; subst.
    destruct (User.referralEarnings v <? User.referralEarnings u)%float eqn:E.
    + constructor; [constructor; assumption |].
      apply Binary64Order.ltb_leb in E.
      constructor; [exact E |].
      rewrite Forall_forall in *. intros x Hx. unfold ranks_before in *.
      eapply Binary64.leb_trans; [apply Hv; assumption | exact E].
    + constructor; [now apply IH |].
      rewrite Forall_forall in *. intros x Hx.
      apply (Permutation_in _ (insert_desc_perm u l)) in Hx as [<- | Hx].
      * now apply Binary64Order.ltb_false_leb.
      * now apply Hv.
Qed.

Lemma sort_desc_acc (l acc : list User.doc) :
  Forall earnings_defined l -> Forall earnings_defined acc ->
  StronglySorted ranks_before acc ->
  StronglySorted ranks_before (fold_left (fun a u => insert_desc u a) l acc) /\
  Permutation (fold_left (fun a u => insert_desc u a) l acc) (acc ++ l).
Proof.
  revert acc. induction l as [| u l IH]; intros acc Hl Hacc Hs; simpl.
  - rewrite app_nil_r. split; [assumption | reflexivity].
  - inversion Hl as [| ? ? Du Dl]; subst.
    destruct (IH (insert_desc u acc)) as [S P]; try assumption.
    + rewrite Forall_forall in *. intros x Hx.
      apply (Permutation_in _ (insert_desc_perm u acc)) in Hx as [<- | Hx]; auto.
    + now apply insert_desc_sorted.
    + split; [assumption |].
      rewrite P, insert_desc_perm. simpl. apply Permutation_middle.
Qed.

Lemma StronglySorted_app_inv {A} (R : A -> A -> Prop) (l1 l2 : list A) :
  StronglySorted R (l1 ++ l2) ->
  StronglySorted R l1 /\ (forall a b, In a l1 -> In b l2 -> R a b).
Proof.
  induction l1 as [| x l1 IH]; simpl; intros H.
  - split; [constructor | intros a b []].
  - inversion H as [| ? ? Hs Hx]; subst. destruct (IH Hs) as [S1 S2].
    split.
    + constructor; [assumption |].
      rewrite Forall_forall in *. intros y Hy. apply Hx. apply in_or_app. now left.
    + intros a b [<- | Ha] Hb.
      * rewrite Forall_forall in Hx. apply Hx. apply in_or_app. now right.
      * now apply S2.
Qed.

(** [GET /leaderboard] changes nothing and answers 200 with a board of at
    most 1000 accounts that is sorted by earnings, highest first; the board
    and the accounts left out are together the stored accounts, and no
    account left out has earned more than one on the board. *)
Theorem leaderboard_is_the_top (w : world) :
  Forall earnings_defined (users w) ->
  exists board rest,
    handle get_leaderboard w = (Some (res_json (JLeaderboard board)), w) /\
    Permutation (users w) (board ++ rest) /\
    List.length board = Nat.min 1000 (List.length (users w)) /\
    StronglySorted ranks_before board /\
    (forall a b, In a board -> In b rest -> ranks_before a b).
Proof.
  intros Hd.
  destruct (@sort_desc_acc (users w) [] Hd (Forall_nil _) (SSorted_nil _)) as [S P].
  fold (sort_desc (users w)) in S, P. simpl in P.
  exists (firstn 1000 (sort_desc (users w))), (skipn 1000 (sort_desc (users w))).
  split; [reflexivity |].
  rewrite firstn_skipn. split; [now symmetry |].
  split.
  - rewrite length_firstn. now rewrite (Permutation_length P).
  - rewrite <- (firstn_skipn 1000 (sort_desc (users w))) in S.
    now apply StronglySorted_app_inv in S.
Qed.

Lemma leaderboard_is_the_top_witness :
  exists board rest,
    handle get_leaderboard
           (World [] [User.Build "carol" (Some "REF7") 5; User.Build "dave" (Some "REF42") 0;
                      User.Build "erin" (Some "REF9") 12.5] [])
    = (Some (res_json (JLeaderboard board)),
       World [] [User.Build "carol" (Some "REF7") 5; User.Build "dave" (Some "REF42") 0;
                 User.Build "erin" (Some "REF9") 12.5] []) /\
    Permutation [User.Build "carol" (Some "REF7") 5; User.Build "dave" (Some "REF42") 0;
                 User.Build "erin" (Some "REF9") 12.5] (board ++ rest) /\
    List.length board = Nat.min 1000 3 /\
    StronglySorted ranks_before board /\
    (forall a b, In a board -> In b rest -> ranks_before a b).
Proof.
  apply (leaderboard_is_the_top
           (World [] [User.Build "carol" (Some "REF7") 5; User.Build "dave" (Some "REF42") 0;
                      User.Build "erin" (Some "REF9") 12.5] [])).
  repeat constructor.
Defined.

(* ------------------------------------------------------------------------- *)
(** ** The webhook and transactions that are already stored *)

(** A purchase is stored under the transaction id. *)
Definition known (transactionId : string) (w : world) : Prop :=
  In transactionId (map Purchase.transactionId (purchases w)).

Lemma find_some_known (transactionId : string) (w : world) (p : Purchase.doc) :
  find (fun q => Purchase.transactionId q =? transactionId) (purchases w) = Some p ->
  known transactionId w.
Proof.
  intros H. apply find_some in H as [Hin Heq]. apply String.eqb_eq in Heq.
  unfold known. rewrite <- Heq. now apply in_map.
Qed.

Lemma known_find (transactionId : string) (w : world) :
  known transactionId w ->
  exists p, find (fun q => Purchase.transactionId q =? transactionId) (purchases w) = Some p.
Proof.
  intros H.
  destruct (find (fun q => Purchase.transactionId q =? transactionId) (purchases w))
    as [p |] eqn:E; [eauto |].
  apply find_none_not_in in E. contradiction.
Qed.

Lemma known_extends (P : Purchase.doc -> Prop) (transactionId : string) (w w' : world) :
  extends P w w' -> known transactionId w -> known transactionId w'.
Proof.
  intros (_ & added & Hp & _) H. unfold known in *.
  rewrite Hp, map_app. apply in_or_app. now left.
Qed.

(** A record the webhook has nothing left to do for: it carries no payment
    to the presale wallet, or it has signers and its signature is stored. *)
Definition settled (e : env) (w : world) (tx : Hook.tx) : Prop :=
  no_match e tx = true \/ (Hook.signers tx <> None /\ known (Hook.signature tx) w).

Lemma webhook_tx_settled (e : env) (w : world) (tx : Hook.tx) :
  settled e w tx -> webhook_tx e tx w = (Normal tt, w).
Proof.
  intros [H | [Hs Hk]]; [now apply webhook_tx_no_match |].
  unfold webhook_tx.
  destruct (Hook.instructions tx) as [l |]; [| reflexivity].
  induction l as [| inst l IH]; simpl; [reflexivity |].
  unfold bind at 1.
  assert (Hi : webhook_instruction e tx inst w = (Normal tt, w)).
  { unfold webhook_instruction.
    destruct (Hook.parsed_info inst) as [info |]; [| reflexivity].
    destruct (JS.strict_eq (Hook.destination info) (PRESALE_WALLET e)); [| reflexivity].
    unfold bind at 1.
    destruct (Hook.signers tx) as [signers |]; [| congruence].
    unfold ret at 1. unfold bind, Purchase_findOne.
    destruct (@known_find _ _ Hk) as [p ->]. reflexivity. }
  rewrite Hi. exact IH.
Qed.

Lemma batch_settled (e : env) (w : world) (transactions : list Hook.tx) :
  Forall (settled e w) transactions ->
  for_of transactions (webhook_tx e) w = (Normal tt, w).
Proof.
  induction 1 as [| tx l Htx _ IH]; simpl; [reflexivity |].
  unfold bind. now rewrite (@webhook_tx_settled _ _ _ Htx).
Qed.

Lemma settled_extends (P : Purchase.doc -> Prop) (e : env) (w w' : world) (tx : Hook.tx) :
  extends P w w' -> settled e w tx -> settled e w' tx.
Proof.
  intros He [H | [Hs Hk]]; [now left | right].
  split; [assumption | eapply known_extends; eassumption].
Qed.

Lemma webhook_instruction_settles (e : env) (tx : Hook.tx) (inst : Hook.instruction)
    (w w' : world) :
  webhook_instruction e tx inst w = (Normal tt, w') ->
  passed_over e inst = false ->
  Hook.signers tx <> None /\ known (Hook.signature tx) w'.
Proof.
  unfold webhook_instruction, passed_over.
  destruct (Hook.parsed_info inst) as [info |]; [| discriminate].
  destruct (JS.strict_eq (Hook.destination info) (PRESALE_WALLET e)); [| discriminate].
  unfold bind at 1.
  destruct (Hook.signers tx) as [signers |]; [| discriminate].
  unfold ret at 1. unfold bind, Purchase_findOne.
  destruct (find _ (purchases w)) as [p |] eqn:Ef.
  - intros H _. injection H as <-. split; [discriminate |].
    eapply find_some_known; eassumption.
  - unfold Purchase_save. destruct (_ || _); [discriminate |].
    intros H _. injection H as <-. split; [discriminate |].
    unfold known. simpl. rewrite map_app. apply in_or_app. right. simpl. auto.
Qed.

Lemma webhook_instructions_settle (e : env) (tx : Hook.tx) (l : list Hook.instruction)
    (w w' : world) :
  for_of l (webhook_instruction e tx) w = (Normal tt, w') ->
  forallb (passed_over e) l = false ->
  Hook.signers tx <> None /\ known (Hook.signature tx) w'.
Proof.
  revert w. induction l as [| inst l IH]; intros w; simpl; [discriminate |].
  unfold bind.
  destruct (webhook_instruction e tx inst w) as [[[] | err] w1] eqn:Ei; [| discriminate].
  intros Hrest Hm.
  destruct (passed_over e inst) eqn:Ep; simpl in Hm.
  - now apply (IH w1).
  - destruct (@webhook_instruction_settles _ _ _ _ _ Ei Ep) as [Hs Hk].
    split; [assumption |].
    apply (@known_extends (fun _ => True) (Hook.signature tx) w1 w'); [| assumption].
    replace w' with (snd (for_of l (webhook_instruction e tx) w1)) by now rewrite Hrest.
    apply for_of_extends. intros x _ v.
    unfold webhook_instruction.
    destruct (Hook.parsed_info x) as [info |]; [| apply extends_refl].
    destruct (JS.strict_eq (Hook.destination info) (PRESALE_WALLET e));
      [| apply extends_refl].
    unfold bind at 1.
    destruct (Hook.signers tx) as [signers |]; [| apply extends_refl].
    unfold ret at 1. unfold bind, Purchase_findOne.
    destruct (find _ (purchases v)); [apply extends_refl |].
    unfold Purchase_save. destruct (_ || _); [apply extends_refl |].
    split; [reflexivity |]. eexists. split; [reflexivity |]. repeat constructor.
Qed.

Lemma webhook_tx_grows (e : env) (tx : Hook.tx) (w : world) :
  extends (fun _ => True) w (snd (webhook_tx e tx w)).
Proof.
  destruct (webhook_tx_extends e [tx] tx w (or_introl eq_refl)) as (Hu & added & Hp & _).
  split; [assumption |]. exists added. split; [assumption |].
  apply Forall_forall. auto.
Qed.

Lemma batch_success_settles (e : env) (transactions : list Hook.tx) (w w' : world) :
  for_of transactions (webhook_tx e) w = (Normal tt, w') ->
  Forall (settled e w') transactions.
Proof.
  revert w. induction transactions as [| tx l IH]; intros w; simpl; [constructor |].
  unfold bind.
  destruct (webhook_tx e tx w) as [[[] | err] w1] eqn:Et; [| discriminate].
  intros Hrest. constructor; [| now apply (IH w1)].
  apply (@settled_extends (fun _ => True) e w1 w' tx).
  - replace w' with (snd (for_of l (webhook_tx e) w1)) by now rewrite Hrest.
    apply for_of_extends. intros x _ v. apply webhook_tx_grows.
  - unfold settled. destruct (no_match e tx) eqn:En; [now left | right].
    unfold no_match, webhook_tx in *.
    destruct (Hook.instructions tx) as [insts |]; [| discriminate].
    eapply webhook_instructions_settle; eassumption.
Qed.

Lemma post_webhook_processed (e : env) (transactions : list Hook.tx) (w w' : world) :
  handle (post_webhook e transactions) w = (Some Webhook_processed, w') ->
  for_of transactions (webhook_tx e) w = (Normal tt, w').
Proof.
  unfold handle, post_webhook, try_catch, bind, ret.
  destruct (for_of transactions (webhook_tx e) w) as [[[] | err] w1]; intros H.
  - now injection H as <-.
  - discriminate.
Qed.

(** After a batch that was answered 200, every record of the batch that
    carries a payment to the presale wallet has a purchase stored under its
    signature. *)
Theorem webhook_stores_every_payment (e : env) (transactions : list Hook.tx) (w w' : world)
    (tx : Hook.tx) :
  handle (post_webhook e transactions) w = (Some Webhook_processed, w') ->
  In tx transactions ->
  no_match e tx = false ->
  known (Hook.signature tx) w'.
Proof.
  intros H Hin Hm. apply post_webhook_processed, batch_success_settles in H.
  rewrite Forall_forall in H. destruct (H tx Hin) as [E | [_ Hk]]; [congruence | exact Hk].
Qed.

Lemma webhook_stores_every_payment_witness :
  known (Hook.signature Sample.signed_tx)
        (snd (handle (post_webhook Sample.online [Sample.signed_tx]) Sample.store)).
Proof.
  exact (@webhook_stores_every_payment Sample.online [Sample.signed_tx] Sample.store _
           Sample.signed_tx eq_refl (or_introl eq_refl) eq_refl).
Defined.

(** Redelivery is harmless: a batch that was answered 200, delivered again,
    is answered 200 again and stores nothing more. *)
Theorem webhook_redelivery (e : env) (transactions : list Hook.tx) (w w' : world) :
  handle (post_webhook e transactions) w = (Some Webhook_processed, w') ->
  handle (post_webhook e transactions) w' = (Some Webhook_processed, w').
Proof.
  intros H. apply post_webhook_processed, batch_success_settles, batch_settled in H.
  unfold handle, post_webhook, try_catch, bind. now rewrite H.
Qed.

Lemma webhook_redelivery_witness :
  handle (post_webhook Sample.online [Sample.signed_tx; Sample.signed_tx])
         (snd (handle (post_webhook Sample.online [Sample.signed_tx; Sample.signed_tx])
                      Sample.store))
  = (Some Webhook_processed,
     snd (handle (post_webhook Sample.online [Sample.signed_tx; Sample.signed_tx])
                 Sample.store)).
Proof.
  exact (@webhook_redelivery Sample.online [Sample.signed_tx; Sample.signed_tx]
           Sample.store _ eq_refl).
Defined.

(** The webhook passes over what is already recorded: a batch in which
    every payment to the presale wallet comes in a record that has signers
    and whose signature is already stored (by [/purchase] or by an earlier
    batch) is answered 200 and changes nothing. *)
Theorem webhook_ignores_known (e : env) (transactions : list Hook.tx) (w : world) :
  Forall (settled e w) transactions ->
  handle (post_webhook e transactions) w = (Some Webhook_processed, w).
Proof.
  intros H. apply batch_settled in H.
  unfold handle, post_webhook, try_catch, bind. now rewrite H.
Qed.

Lemma webhook_ignores_known_witness :
  handle (post_webhook Sample.online [Sample.signed_tx])
         (snd (handle (post_purchase Sample.online (Sample.buy "bob" "sig2" 100 None))
                      Sample.store))
  = (Some Webhook_processed,
     snd (handle (post_purchase Sample.online (Sample.buy "bob" "sig2" 100 None))
                 Sample.store)).
Proof.
  apply webhook_ignores_known.
  constructor; [| constructor].
  right. split; [discriminate | left; reflexivity].
Defined.

(* ------------------------------------------------------------------------- *)
(** ** The presale wallet when it is not configured *)

(** With [PRESALE_WALLET] unset or empty, the verifier falls back to the
    built-in wallet: it confirms only transactions that touch that wallet.
    The webhook has no fallback: it passes over every instruction that
    names a destination, so a batch of such instructions is answered 200
    and stores nothing. *)
Theorem presale_wallet_unset (e : env) :
  JS.truthy_str (PRESALE_WALLET e) = None ->
  (forall txSignature fromWallet a w,
      fst (validateSignatureOnChain e txSignature fromWallet a w) = Normal true ->
      exists rest,
        getTransaction e txSignature = RpcTx (fromWallet :: rest) /\
        In default_presale_wallet (fromWallet :: rest))
  /\
  (forall transactions w,
      (forall tx l inst info,
          In tx transactions -> Hook.instructions tx = Some l -> In inst l ->
          Hook.parsed_info inst = Some info ->
          JS.truthy_str (Hook.destination info) <> None) ->
      handle (post_webhook e transactions) w = (Some Webhook_processed, w)).
Proof.
  intros Hp. split.
  - intros s f a w H. rewrite validateSignatureOnChain_returns in H. simpl in H.
    injection H as H. apply confirmed_inv in H as (rest & Hg & _ & _ & Hin).
    unfold JS.or_str in Hin. rewrite Hp in Hin. eauto.
  - intros transactions w H.
    assert (S : Forall (settled e w) transactions).
    { apply Forall_forall. intros tx Htx. left. unfold no_match.
      destruct (Hook.instructions tx) as [l |] eqn:El; [| reflexivity].
      apply forallb_forall. intros inst Hinst. unfold passed_over.
      destruct (Hook.parsed_info inst) as [info |] eqn:Ei; [| reflexivity].
      specialize (H tx l inst info Htx El Hinst Ei).
      destruct (Hook.destination info) as [[| c d] |]; simpl in H; try congruence.
      destruct (PRESALE_WALLET e) as [[| c' q] |]; simpl in Hp |- *;
        try reflexivity; discriminate. }
    apply batch_settled in S.
    unfold handle, post_webhook, try_catch, bind. now rewrite S.
Qed.

Lemma presale_wallet_unset_witness :
  (forall txSignature fromWallet a w,
      fst (validateSignatureOnChain (Env None Sample.chain (fun _ => true) Sample.sum)
                                    txSignature fromWallet a w) = Normal true ->
      exists rest,
        getTransaction (Env None Sample.chain (fun _ => true) Sample.sum) txSignature
        = RpcTx (fromWallet :: rest) /\
        In default_presale_wallet (fromWallet :: rest))
  /\
  (forall transactions w,
      (forall tx l inst info,
          In tx transactions -> Hook.instructions tx = Some l -> In inst l ->
          Hook.parsed_info inst = Some info ->
          JS.truthy_str (Hook.destination info) <> None) ->
      handle (post_webhook (Env None Sample.chain (fun _ => true) Sample.sum) transactions) w
      = (Some Webhook_processed, w)).
Proof.
  exact (@presale_wallet_unset (Env None Sample.chain (fun _ => true) Sample.sum) eq_refl).
Defined.

(* ------------------------------------------------------------------------- *)
(** ** What holds for requests in flight together *)

(** The purchases of [w'] are those of [w], followed by documents that
    satisfy [P]. *)
Definition ledger_grows (P : Purchase.doc -> Prop) (w w' : world) : Prop :=
  exists added, purchases w' = purchases w ++ added /\ Forall P added.

(** The accounts of [w'] are those of [w], up to their earnings. *)
Definition same_accounts (w w' : world) : Prop :=
  map User.walletAddress (users w') = map User.walletAddress (users w) /\
  map User.referralCode (users w') = map User.referralCode (users w).

(** A purchase whose transaction the ledger node confirms for its wallet. *)
Definition confirmed_doc (e : env) (p : Purchase.doc) : Prop :=
  exists walletAddress,
    Purchase.walletAddress p = Some walletAddress /\
    confirmed e (Purchase.transactionId p) walletAddress = true.

(** A task that is past verification holds a confirmed transaction. *)
Definition task_sound (e : env) (t : task) : Prop :=
  match t with
  | AtFindOne walletAddress _ _ transactionId _
  | AtSave walletAddress _ _ transactionId _ => confirmed e transactionId walletAddress = true
  | _ => True
  end.

Lemma ledger_grows_refl (P : Purchase.doc -> Prop) (w w' : world) :
  purchases w' = purchases w -> ledger_grows P w w'.
Proof. intros H. exists []. rewrite app_nil_r. auto. Qed.

Lemma ledger_grows_trans (P : Purchase.doc -> Prop) (a b c : world) :
  ledger_grows P a b -> ledger_grows P b c -> ledger_grows P a c.
Proof.
  intros (l1 & H1 & F1) (l2 & H2 & F2). exists (l1 ++ l2). split.
  - rewrite H2, H1, app_assoc. reflexivity.
  - apply Forall_app. auto.
Qed.

Lemma step_sound (e : env) (t : task) (w : world) :
  task_sound e t ->
  task_sound e (fst (step e t w)) /\
  ledger_grows (confirmed_doc e) w (snd (step e t w)) /\
  same_accounts w (snd (step e t w)).
Proof.
  assert (Quiet : forall t' w',
             task_sound e t' -> purchases w' = purchases w -> users w' = users w ->
             task_sound e (fst (t', w')) /\
             ledger_grows (confirmed_doc e) w (snd (t', w')) /\
             same_accounts w (snd (t', w'))).
  { intros t' w' H Hp Hu. split; [assumption |].
    split; [now apply ledger_grows_refl |]. unfold same_accounts. simpl. now rewrite Hu. }
  intros Ht. destruct t as [req | wa usd tok tid code | wa usd tok tid code
                           | code usd | id refUser | answer]; unfold step.
  - presence req ltac:(now apply Quiet).
    unfold try_catch, bind. rewrite validateSignatureOnChain_returns.
    destruct (confirmed e transactionId walletAddress) eqn:Ec;
      cbn -[fst snd task_sound]; now apply Quiet.
  - unfold Purchase_findOne.
    destruct (find _ (purchases w)); cbn -[fst snd task_sound]; now apply Quiet.
  - unfold Purchase_save. cbn [Purchase.usdSpent Purchase.tokensReceived].
    destruct (_ || _); [now apply Quiet |].
    assert (Grow : forall t', task_sound e t' ->
               task_sound e (fst (t', World (purchases w ++
                   [Purchase.Build (Some wa) usd tok tid (JS.truthy_str code)])
                   (users w) (rpc_log w))) /\
               ledger_grows (confirmed_doc e) w
                 (snd (t', World (purchases w ++
                   [Purchase.Build (Some wa) usd tok tid (JS.truthy_str code)])
                   (users w) (rpc_log w))) /\
               same_accounts w
                 (snd (t', World (purchases w ++
                   [Purchase.Build (Some wa) usd tok tid (JS.truthy_str code)])
                   (users w) (rpc_log w)))).
    { intros t' H. split; [assumption |]. split; [| split; reflexivity].
      eexists. split; [reflexivity |]. constructor; [| constructor].
      exists wa. split; [reflexivity | assumption]. }
    destruct (JS.truthy_str code); now apply Grow.
  - unfold User_findOne_referralCode.
    destruct (find_indexed _ (users w)) as [[id u] |]; cbn -[fst snd task_sound];
      now apply Quiet.
  - unfold User_save_referralEarnings. destruct (is_nan _); [now apply Quiet |].
    split; [exact I |]. split; [now apply ledger_grows_refl |].
    split; now apply map_update_at.
  - now apply Quiet.
Qed.

Lemma Forall_update_at {A} (P : A -> Prop) (l : list A) (i : nat) (x : A) :
  Forall P l -> P x -> Forall P (update_at i (fun _ => x) l).
Proof.
  intros Hl Hx. revert i. induction Hl as [| y l Hy Hl IH]; intros [| i]; simpl;
    constructor; auto.
Qed.

(** Whatever the order in which requests in flight take their steps: the
    ledger only grows, every purchase added to it carries a transaction that
    the ledger node confirmed for its wallet, and no account is added,
    removed, or given another wallet or referral code. *)
Theorem interleaved_purchases_are_confirmed
    (e : env) (schedule : list nat) (reqs : list Req.body) (w : world) :
  ledger_grows (confirmed_doc e) w (snd (interleave e schedule (map AtStart reqs) w)) /\
  same_accounts w (snd (interleave e schedule (map AtStart reqs) w)).
Proof.
  assert (G : forall ts v, Forall (task_sound e) ts ->
             ledger_grows (confirmed_doc e) v (snd (interleave e schedule ts v)) /\
             same_accounts v (snd (interleave e schedule ts v))).
  { induction schedule as [| i schedule IH]; intros ts v Hts; simpl.
    - split; [now apply ledger_grows_refl | split; reflexivity].
    - destruct (nth_error ts i) as [t |] eqn:Ei; [| now apply IH].
      assert (Ht : task_sound e t).
      { rewrite Forall_forall in Hts. apply Hts. eapply nth_error_In; eassumption. }
      destruct (@step_sound e t v Ht) as (S1 & S2 & S3 & S4).
      destruct (step e t v) as [t' v1]. simpl in S1, S2, S3, S4.
      destruct (IH (update_at i (fun _ => t') ts) v1) as (I1 & I2 & I3).
      { now apply Forall_update_at. }
      split; [eapply ledger_grows_trans; eassumption |].
      split; congruence. }
  apply G. apply Forall_forall. intros t Ht.
  apply in_map_iff in Ht as (req & <- & _). exact I.
Qed.

(* ------------------------------------------------------------------------- *)
(** ** Profiles: display names and avatars *)

Lemma find_from_update_at {A} (f : A -> bool) (g : A -> A) (l : list A) (k i : nat) (x : A) :
  (forall y, f (g y) = f y) ->
  find_from f k l = Some (k + i, x) ->
  find_from f k (update_at i g l) = Some (k + i, g x).
Proof.
  intros Hg. revert k i. induction l as [| y l IH]; intros k i; simpl; [discriminate |].
  destruct i as [| i].
  - simpl. rewrite Hg. destruct (f y) eqn:E.
    + intros H. injection H as _ <-. now rewrite Nat.add_0_r.
    + intros H. apply find_from_nth_error in H as [Hle _]. lia.
  - destruct (f y) eqn:E.
    + intros H. injection H as H _. lia.
    + simpl. rewrite E. intros H.
      replace (k + S i) with (S k + i) in * by lia. now apply IH.
Qed.

Lemma find_from_map {A B} (h : A -> B) (f : B -> bool) (l : list A) (k : nat) :
  find_from f k (map h l) =
  option_map (fun ix => (fst ix, h (snd ix))) (find_from (fun x => f (h x)) k l).
Proof.
  revert k. induction l as [| x l IH]; intros k; simpl; [reflexivity |].
  destruct (f (h x)); [reflexivity | apply IH].
Qed.

Lemma existsb_map {A B} (h : A -> B) (f : B -> bool) (l : list A) :
  existsb f (map h l) = existsb (fun x => f (h x)) l.
Proof.
  induction l as [| x l IH]; simpl; [reflexivity | now rewrite IH].
Qed.

Lemma update_at_id {A} (g : A -> A) (l : list A) (i : nat) :
  (forall x, nth_error l i = Some x -> g x = x) -> update_at i g l = l.
Proof.
  revert i. induction l as [| y l IH]; intros [| i] H; simpl; try reflexivity.
  - now rewrite H.
  - now rewrite IH.
Qed.

Lemma or_str_empty (s : string) : JS.or_str (Some s) "" = s.
Proof.
  unfold JS.or_str, JS.truthy_str, JS.falsy_str.
  destruct (s =? "") eqn:E; [| reflexivity].
  apply String.eqb_eq in E. now subst.
Qed.

(** The body of the later [GET /user] answer for a stored document. *)
Definition profile_info (p : Profile.doc) : Profile.json :=
  Profile.JUser (User.walletAddress (Profile.account p))
                (JS.truthy_str (User.referralCode (Profile.account p)))
                (if JS.falsy_num (User.referralEarnings (Profile.account p)) then 0%float
                 else User.referralEarnings (Profile.account p))
                (JS.or_str (Some (Profile.avatarUrl p)) Profile.defaultAvatar)
                (JS.or_str (Some (Profile.displayName p)) "").

Lemma profile_save_new_fresh (walletAddress name : string) (random : nat)
    (db : list Profile.doc) :
  Profile.findOne walletAddress db = None ->
  Profile.save_new (Profile.set_displayName (Profile.fresh walletAddress random) name) db =
  if existsb (fun q => JS.strict_eq (User.referralCode (Profile.account q))
                                    (Some (new_code random))) db
  then (Throw DuplicateKey, db)
  else (Normal tt, db ++ [Profile.set_displayName (Profile.fresh walletAddress random) name]).
Proof.
  intros Hf. unfold Profile.save_new, Profile.findOne, find_indexed in *.
  pose proof (find_from_existsb
                (fun p => User.walletAddress (Profile.account p) =? walletAddress) db 0) as Hx.
  rewrite Hf in Hx. cbn [Profile.fresh Profile.set_displayName Profile.account
                         User.referralEarnings User.walletAddress User.referralCode].
  change (is_nan 0) with false. cbv iota. rewrite <- Hx.
  reflexivity.
Qed.

Lemma profile_findOne_spec (walletAddress : string) (db : list Profile.doc) (id : nat)
    (p : Profile.doc) :
  Profile.findOne walletAddress db = Some (id, p) ->
  nth_error db id = Some p /\ User.walletAddress (Profile.account p) = walletAddress.
Proof.
  intros H. apply find_indexed_nth_error in H as [Hn Hf].
  apply String.eqb_eq in Hf. auto.
Qed.

Lemma profile_findOne_existsb (walletAddress : string) (db : list Profile.doc) :
  match Profile.findOne walletAddress db with Some _ => true | None => false end =
  existsb (fun p => User.walletAddress (Profile.account p) =? walletAddress) db.
Proof.
  apply find_from_existsb.
Qed.

(** [POST /upload-avatar] changes nothing but the avatar of the account of
    the wallet it names: every account (wallet, code, earnings) and every
    display name stay as they are, documents of other wallets are
    untouched, no document is added, and every answer other than 200 leaves
    the collection as it was.  It answers 200 exactly when the upload went
    through with a file, the wallet address is present and an account for
    it exists. *)
Theorem upload_avatar_effect (up : Profile.uploaded) (walletAddress : option string)
    (db : list Profile.doc) :
  map Profile.account (snd (Profile.post_upload_avatar up walletAddress db)) =
    map Profile.account db /\
  map Profile.displayName (snd (Profile.post_upload_avatar up walletAddress db)) =
    map Profile.displayName db /\
  (forall j p, nth_error db j = Some p ->
               Some (User.walletAddress (Profile.account p)) <> walletAddress ->
               nth_error (snd (Profile.post_upload_avatar up walletAddress db)) j = Some p) /\
  (Profile.status (fst (Profile.post_upload_avatar up walletAddress db)) = 200 \/
   snd (Profile.post_upload_avatar up walletAddress db) = db) /\
  (Profile.status (fst (Profile.post_upload_avatar up walletAddress db)) = 200 <->
   exists url w,
     up = Profile.UploadDone (Some url) /\ JS.truthy_str walletAddress = Some w /\
     existsb (fun p => User.walletAddress (Profile.account p) =? w) db = true).
Proof.
  assert (Quiet : forall (r : Profile.response),
            Profile.status r <> 200 ->
            (forall url w,
               up = Profile.UploadDone (Some url) -> JS.truthy_str walletAddress = Some w ->
               existsb (fun p => User.walletAddress (Profile.account p) =? w) db = false) ->
            map Profile.account (snd (r, db)) = map Profile.account db /\
            map Profile.displayName (snd (r, db)) = map Profile.displayName db /\
            (forall j p, nth_error db j = Some p ->
                         Some (User.walletAddress (Profile.account p)) <> walletAddress ->
                         nth_error (snd (r, db)) j = Some p) /\
            (Profile.status (fst (r, db)) = 200 \/ snd (r, db) = db) /\
            (Profile.status (fst (r, db)) = 200 <->
             exists url w,
               up = Profile.UploadDone (Some url) /\ JS.truthy_str walletAddress = Some w /\
               existsb (fun p => User.walletAddress (Profile.account p) =? w) db = true)).
  { intros r Hr Hno. simpl. repeat split; auto.
    - intros H. contradiction.
    - intros (url & w & Hu & Hw & Hx). rewrite (Hno url w Hu Hw) in Hx. discriminate. }
  unfold Profile.post_upload_avatar.
  destruct up as [code message | [finalUrl |]].
  - destruct (JS.strict_eq code _); apply Quiet; simpl; try discriminate;
      intros url w Hu; discriminate.
  - destruct (JS.truthy_str walletAddress) as [w |] eqn:Ew.
    + pose proof (profile_findOne_existsb w db) as Hx.
      destruct (Profile.findOne w db) as [[id user] |] eqn:Ef.
      * apply profile_findOne_spec in Ef as [Hn Hwu].
        pose proof (@truthy_str_Some _ _ Ew) as [Ev _]. simpl.
        split; [now apply map_update_at |]. split; [now apply map_update_at |].
        split; [| split; [now left |]].
        -- intros j p Hj Hp. destruct (Nat.eq_dec id j) as [<- | Hij].
           ++ exfalso. apply Hp. congruence.
           ++ now rewrite nth_error_update_at_other.
        -- split; [| reflexivity]. intros _. exists finalUrl, w.
           split; [reflexivity | split; [reflexivity | now symmetry]].
      * apply Quiet; simpl; [discriminate |].
        intros url w' _ Hw. injection Hw as <-. now symmetry.
    + apply Quiet; simpl; [discriminate |]. intros url w _ Hw. discriminate.
  - apply Quiet; simpl; [destruct (JS.truthy_str walletAddress); discriminate |].
    intros url w Hu. discriminate.
Qed.

Lemma profile_update_paths (trim : string -> string) (w : string)
    (displayName : option string) (random : nat) (db : list Profile.doc) :
  w <> "" ->
  Profile.post_update_profile trim (Some w) displayName random db =
  let name (old : string) :=
    match displayName with Some s => trim s | None => old end in
  match Profile.findOne w db with
  | Some (id, user) =>
      (Profile.res_json (Profile.JMessage "Profile updated"),
       update_at id (fun stored =>
                       Profile.set_displayName stored (name (Profile.displayName user))) db)
  | None =>
      if existsb (fun q => JS.strict_eq (User.referralCode (Profile.account q))
                                        (Some (new_code random))) db
      then (Profile.Response 500 (Profile.JError "Failed to update profile"), db)
      else (Profile.res_json (Profile.JMessage "Profile updated"),
            db ++ [Profile.set_displayName (Profile.fresh w random) (name "")])
  end.
Proof.
  intros Hw. unfold Profile.post_update_profile, JS.truthy_str, JS.falsy_str.
  apply String.eqb_neq in Hw. rewrite Hw. cbv zeta.
  destruct (Profile.findOne w db) as [[id user] |] eqn:Ef.
  - destruct displayName; reflexivity.
  - replace (match displayName with
             | Some s => Profile.set_displayName (Profile.fresh w random) (trim s)
             | None => Profile.fresh w random
             end)
      with (Profile.set_displayName (Profile.fresh w random)
              match displayName with Some s => trim s | None => "" end)
      by (destruct displayName; reflexivity).
    rewrite (@profile_save_new_fresh _ _ _ _ Ef).
    destruct (existsb _ db); reflexivity.
Qed.

(** [POST /update-profile] keeps every stored account (wallet, code,
    earnings) and every stored avatar, leaves the documents of other
    wallets untouched, and leaves every stored document untouched when the
    body carries no string [displayName].  It adds at most one document,
    and only for the wallet it names, when that wallet has no account: a
    new account with earnings 0 and no avatar.  An answer other than 200
    leaves the collection as it was. *)
Theorem update_profile_effect (trim : string -> string)
    (walletAddress displayName : option string) (random : nat) (db : list Profile.doc) :
  exists kept added : list Profile.doc,
    snd (Profile.post_update_profile trim walletAddress displayName random db) = kept ++ added /\
    map Profile.account kept = map Profile.account db /\
    map Profile.avatarUrl kept = map Profile.avatarUrl db /\
    (forall j p, nth_error db j = Some p ->
                 Some (User.walletAddress (Profile.account p)) <> walletAddress ->
                 nth_error kept j = Some p) /\
    (displayName = None -> kept = db) /\
    List.length added <= 1 /\
    Forall (fun p => Some (User.walletAddress (Profile.account p)) = walletAddress /\
                     User.referralEarnings (Profile.account p) = 0%float /\
                     Profile.avatarUrl p = "" /\
                     existsb (fun q => User.walletAddress (Profile.account q) =?
                                       User.walletAddress (Profile.account p)) db = false)
           added /\
    (Profile.status (fst (Profile.post_update_profile trim walletAddress displayName random db))
       = 200 \/
     (kept = db /\ added = [])).
Proof.
  assert (Quiet : forall r : Profile.response,
            exists kept added : list Profile.doc,
              snd (r, db) = kept ++ added /\
              map Profile.account kept = map Profile.account db /\
              map Profile.avatarUrl kept = map Profile.avatarUrl db /\
              (forall j p, nth_error db j = Some p ->
                           Some (User.walletAddress (Profile.account p)) <> walletAddress ->
                           nth_error kept j = Some p) /\
              (displayName = None -> kept = db) /\
              List.length added <= 1 /\
              Forall (fun p => Some (User.walletAddress (Profile.account p)) = walletAddress /\
                               User.referralEarnings (Profile.account p) = 0%float /\
                               Profile.avatarUrl p = "" /\
                               existsb (fun q => User.walletAddress (Profile.account q) =?
                                                 User.walletAddress (Profile.account p)) db
                               = false)
                     added /\
              (Profile.status (fst (r, db)) = 200 \/ (kept = db /\ added = []))).
  { intros r. exists db, []. simpl. rewrite app_nil_r. repeat split; auto. }
  destruct (JS.truthy_str walletAddress) as [w |] eqn:Ew.
  - apply truthy_str_Some in Ew as [-> Hw].
    rewrite (@profile_update_paths trim w displayName random db Hw). cbv zeta.
    pose proof (profile_findOne_existsb w db) as Hx.
    destruct (Profile.findOne w db) as [[id user] |] eqn:Ef.
    + apply profile_findOne_spec in Ef as [Hn Hwu].
      eexists. exists []. simpl. rewrite app_nil_r.
      split; [reflexivity |].
      split; [now apply map_update_at |]. split; [now apply map_update_at |].
      split; [| split; [| split; [lia | split; [constructor | now left]]]].
      * intros j p Hj Hp. destruct (Nat.eq_dec id j) as [<- | Hij].
        -- exfalso. apply Hp. congruence.
        -- now rewrite nth_error_update_at_other.
      * intros ->. apply update_at_id. intros x Hx'.
        rewrite Hn in Hx'. injection Hx' as <-. now destruct user.
    + destruct (existsb (fun q => JS.strict_eq (User.referralCode (Profile.account q))
                                              (Some (new_code random))) db); [apply Quiet |].
      exists db, [Profile.set_displayName (Profile.fresh w random)
                    match displayName with Some s => trim s | None => "" end].
      simpl. repeat split; auto.
  - unfold Profile.post_update_profile. rewrite Ew. apply Quiet.
Qed.

(** The display name set by [POST /update-profile] is the one [GET /user]
    reports afterwards, trimmed, together with the account's wallet, code,
    earnings and avatar as they were (those of a new account when the
    wallet had none); [GET /user] then changes nothing. *)
Theorem display_name_round_trip (trim : string -> string) (w name : string)
    (random random' : nat) (db : list Profile.doc) :
  w <> "" ->
  Profile.status (fst (Profile.post_update_profile trim (Some w) (Some name) random db)) = 200 ->
  exists p : Profile.doc,
    match Profile.findOne w db with
    | Some (_, q) => p = q
    | None => p = Profile.fresh w random
    end /\
    Profile.get_user w random'
      (snd (Profile.post_update_profile trim (Some w) (Some name) random db)) =
    (Profile.res_json
       (Profile.JUser w
          (JS.truthy_str (User.referralCode (Profile.account p)))
          (if JS.falsy_num (User.referralEarnings (Profile.account p)) then 0%float
           else User.referralEarnings (Profile.account p))
          (JS.or_str (Some (Profile.avatarUrl p)) Profile.defaultAvatar)
          (trim name)),
     snd (Profile.post_update_profile trim (Some w) (Some name) random db)).
Proof.
  intros Hw. rewrite (@profile_update_paths trim w (Some name) random db Hw). cbv zeta.
  destruct (Profile.findOne w db) as [[id user] |] eqn:Ef.
  - intros _. exists user. split; [reflexivity |]. simpl snd.
    unfold Profile.get_user, Profile.findOne, find_indexed in *.
    pose proof (@find_from_nth_error _ _ _ _ _ _ Ef) as (_ & _ & Hf).
    apply String.eqb_eq in Hf.
    rewrite (@find_from_update_at _ _
               (fun stored => Profile.set_displayName stored (trim name)) db 0 id user);
      [| reflexivity | exact Ef].
    simpl. rewrite or_str_empty, Hf. reflexivity.
  - destruct (existsb _ db); [discriminate |]. intros _.
    exists (Profile.fresh w random). split; [reflexivity |]. simpl snd.
    unfold Profile.get_user, Profile.findOne, find_indexed in *.
    rewrite (@find_from_snoc _ _ _ _ _ Ef); [| simpl; apply String.eqb_refl].
    simpl. rewrite or_str_empty. reflexivity.
Qed.

(** For a wallet that has an account, [POST /upload-avatar] with a file
    answers 200 with the file's URL, and [GET /user] afterwards reports
    that URL as the avatar (the default image when the URL is empty), with
    the wallet, code, earnings and display name as they were, and changes
    nothing. *)
Theorem avatar_round_trip (url w : string) (random : nat) (db : list Profile.doc)
    (id : nat) (p : Profile.doc) :
  w <> "" ->
  Profile.findOne w db = Some (id, p) ->
  fst (Profile.post_upload_avatar (Profile.UploadDone (Some url)) (Some w) db) =
    Profile.res_json (Profile.JAvatar "Avatar uploaded successfully" url) /\
  Profile.get_user w random
    (snd (Profile.post_upload_avatar (Profile.UploadDone (Some url)) (Some w) db)) =
  (Profile.res_json
     (Profile.JUser w
        (JS.truthy_str (User.referralCode (Profile.account p)))
        (if JS.falsy_num (User.referralEarnings (Profile.account p)) then 0%float
         else User.referralEarnings (Profile.account p))
        (JS.or_str (Some url) Profile.defaultAvatar)
        (JS.or_str (Some (Profile.displayName p)) "")),
   snd (Profile.post_upload_avatar (Profile.UploadDone (Some url)) (Some w) db)).
Proof.
  intros Hw Ef. unfold Profile.post_upload_avatar, JS.truthy_str, JS.falsy_str.
  apply String.eqb_neq in Hw. rewrite Hw, Ef. split; [reflexivity |]. simpl snd.
  unfold Profile.get_user, Profile.findOne, find_indexed in *.
  pose proof (@find_from_nth_error _ _ _ _ _ _ Ef) as (_ & _ & Hf).
  apply String.eqb_eq in Hf.
  rewrite (@find_from_update_at _ _ (fun stored => Profile.set_avatarUrl stored url) db 0 id p);
    [| reflexivity | exact Ef].
  simpl. rewrite Hf. reflexivity.
Qed.

Module ProfileSample.

(** A [trim] for blanks, enough for the examples. *)
Fixpoint trim_start (s : list Ascii.ascii) : list Ascii.ascii :=
  match s with
  | c :: s' => if Ascii.eqb c Ascii.Space then trim_start s' else s
  | [] => []
  end.

Definition trim (s : string) : string :=
  string_of_list_ascii
    (rev (trim_start (rev (trim_start (list_ascii_of_string s))))).

Definition carol : Profile.doc :=
  Profile.Build (User.Build "carol" (Some "REF7") 5) "Carol" "".

Definition store : list Profile.doc := [carol].

End ProfileSample.

Lemma display_name_round_trip_witness :
  exists p : Profile.doc,
    match Profile.findOne "dave" ProfileSample.store with
    | Some (_, q) => p = q
    | None => p = Profile.fresh "dave" 42
    end /\
    Profile.get_user "dave" 7
      (snd (Profile.post_update_profile ProfileSample.trim (Some "dave") (Some "  Dave ") 42
              ProfileSample.store)) =
    (Profile.res_json
       (Profile.JUser "dave"
          (JS.truthy_str (User.referralCode (Profile.account p)))
          (if JS.falsy_num (User.referralEarnings (Profile.account p)) then 0%float
           else User.referralEarnings (Profile.account p))
          (JS.or_str (Some (Profile.avatarUrl p)) Profile.defaultAvatar)
          (ProfileSample.trim "  Dave ")),
     snd (Profile.post_update_profile ProfileSample.trim (Some "dave") (Some "  Dave ") 42
            ProfileSample.store)).
Proof.
  apply (@display_name_round_trip ProfileSample.trim "dave" "  Dave " 42 7 ProfileSample.store);
    [discriminate | reflexivity].
Defined.

Lemma avatar_round_trip_witness :
  fst (Profile.post_upload_avatar (Profile.UploadDone (Some "https://img/c.png"))
         (Some "carol") ProfileSample.store) =
    Profile.res_json (Profile.JAvatar "Avatar uploaded successfully" "https://img/c.png") /\
  Profile.get_user "carol" 7
    (snd (Profile.post_upload_avatar (Profile.UploadDone (Some "https://img/c.png"))
            (Some "carol") ProfileSample.store)) =
  (Profile.res_json (Profile.JUser "carol" (Some "REF7") 5 "https://img/c.png" "Carol"),
   snd (Profile.post_upload_avatar (Profile.UploadDone (Some "https://img/c.png"))
          (Some "carol") ProfileSample.store)).
Proof.
  apply (@avatar_round_trip "https://img/c.png" "carol" 7 ProfileSample.store 0
           ProfileSample.carol); [discriminate | reflexivity].
Defined.

(** ** The later server on the accounts of the first *)

(** What the first server's [GET /user] shows of an answer of the later
    one. *)
Definition forget (r : Profile.response) : response :=
  Response (Profile.status r)
    match Profile.body r with
    | Profile.JError e => JError e
    | Profile.JMessage m => JMessage m
    | Profile.JAvatar m _ => JMessage m
    | Profile.JUser walletAddress referralCode referralEarnings _ _ =>
        JUser walletAddress referralCode referralEarnings
    end.

Lemma profile_get_user_paths (walletAddress : string) (random : nat) (db : list Profile.doc) :
  Profile.get_user walletAddress random db =
  match Profile.findOne walletAddress db with
  | Some (_, p) => (Profile.res_json (profile_info p), db)
  | None =>
      if existsb (fun q => JS.strict_eq (User.referralCode (Profile.account q))
                                        (Some (new_code random))) db
      then (Profile.Response 500 (Profile.JError "Failed to get user info"), db)
      else (Profile.res_json (profile_info (Profile.fresh walletAddress random)),
            db ++ [Profile.fresh walletAddress random])
  end.
Proof.
  unfold Profile.get_user.
  destruct (Profile.findOne walletAddress db) as [[id p] |] eqn:Ef; [reflexivity |].
  change (Profile.fresh walletAddress random)
    with (Profile.set_displayName (Profile.fresh walletAddress random) "").
  rewrite (@profile_save_new_fresh _ _ _ _ Ef).
  destruct (existsb _ db); reflexivity.
Qed.

(** The later [GET /user] is the first server's [GET /user] on the
    accounts: run on a collection whose accounts are those of the first
    server's, it leaves the same accounts behind and gives the same answer
    once the avatar and the display name are left out of it. *)
Theorem later_get_user_refines (walletAddress : string) (random : nat)
    (db : list Profile.doc) (ps : list Purchase.doc) (log : list string) :
  handle (get_user walletAddress random) (World ps (map Profile.account db) log) =
  (Some (forget (fst (Profile.get_user walletAddress random db))),
   World ps (map Profile.account (snd (Profile.get_user walletAddress random db))) log).
Proof.
  rewrite get_user_paths, profile_get_user_paths. simpl users. simpl purchases. simpl rpc_log.
  unfold Profile.findOne, find_indexed.
  rewrite find_from_map, existsb_map.
  destruct (find_from _ 0 db) as [[id p] |]; simpl; [reflexivity |].
  destruct (existsb _ db); simpl; [reflexivity |].
  rewrite map_app. reflexivity.
Qed.

Lemma upload_avatar_accounts (up : Profile.uploaded) (walletAddress : option string)
    (db : list Profile.doc) :
  map Profile.account (snd (Profile.post_upload_avatar up walletAddress db)) =
  map Profile.account db.
Proof.
  unfold Profile.post_upload_avatar.
  destruct up as [code message | [finalUrl |]].
  - destruct (JS.strict_eq code _); reflexivity.
  - destruct (JS.truthy_str walletAddress) as [w |]; [| reflexivity].
    destruct (Profile.findOne w db) as [[id user] |]; [| reflexivity].
    simpl. now apply map_update_at.
  - destruct (JS.truthy_str walletAddress); reflexivity.
Qed.

Lemma profile_serve_step (trim : string -> string) (r : profile_request)
    (db : list Profile.doc) :
  exists added : list User.doc,
    map Profile.account (profile_serve trim r db) = map Profile.account db ++ added /\
    Forall (fun u => User.referralEarnings u = 0%float) added /\
    (NoDup (map User.walletAddress (map Profile.account db)) ->
     NoDup (map User.walletAddress (map Profile.account db ++ added))) /\
    (NoDup (map User.referralCode (map Profile.account db)) ->
     NoDup (map User.referralCode (map Profile.account db ++ added))).
Proof.
  assert (Same : forall db' : list Profile.doc,
            map Profile.account db' = map Profile.account db ->
            exists added : list User.doc,
              map Profile.account db' = map Profile.account db ++ added /\
              Forall (fun u => User.referralEarnings u = 0%float) added /\
              (NoDup (map User.walletAddress (map Profile.account db)) ->
               NoDup (map User.walletAddress (map Profile.account db ++ added))) /\
              (NoDup (map User.referralCode (map Profile.account db)) ->
               NoDup (map User.referralCode (map Profile.account db ++ added)))).
  { intros db' E. exists []. rewrite app_nil_r. auto. }
  assert (New : forall (w name : string) (random : nat),
            Profile.findOne w db = None ->
            existsb (fun q => JS.strict_eq (User.referralCode (Profile.account q))
                                           (Some (new_code random))) db = false ->
            exists added : list User.doc,
              map Profile.account
                (db ++ [Profile.set_displayName (Profile.fresh w random) name]) =
                map Profile.account db ++ added /\
              Forall (fun u => User.referralEarnings u = 0%float) added /\
              (NoDup (map User.walletAddress (map Profile.account db)) ->
               NoDup (map User.walletAddress (map Profile.account db ++ added))) /\
              (NoDup (map User.referralCode (map Profile.account db)) ->
               NoDup (map User.referralCode (map Profile.account db ++ added)))).
  { intros w name random Ef Ec.
    exists [User.Build w (Some (new_code random)) 0]. rewrite map_app.
    split; [reflexivity |]. split; [repeat constructor |].
    rewrite !map_app. simpl.
    split; intros H; apply NoDup_snoc; try assumption.
    - apply existsb_wallet_false. rewrite existsb_map.
      pose proof (profile_findOne_existsb w db) as Hx. rewrite Ef in Hx. now symmetry.
    - apply existsb_code_false. now rewrite existsb_map. }
  destruct r as [walletAddress random | walletAddress displayName random | up walletAddress];
    unfold profile_serve.
  - rewrite profile_get_user_paths.
    destruct (Profile.findOne walletAddress db) as [[id p] |] eqn:Ef; [now apply Same |].
    destruct (existsb _ db) eqn:Ec; [now apply Same |].
    apply (New walletAddress "" random Ef Ec).
  - destruct (JS.truthy_str walletAddress) as [w |] eqn:Ew.
    + apply truthy_str_Some in Ew as [-> Hw].
      rewrite (@profile_update_paths trim w displayName random db Hw). cbv zeta.
      destruct (Profile.findOne w db) as [[id p] |] eqn:Ef.
      * apply Same. simpl. now apply map_update_at.
      * destruct (existsb _ db) eqn:Ec; [now apply Same |].
        apply (New w _ random Ef Ec).
    + unfold Profile.post_update_profile. rewrite Ew. now apply Same.
  - apply Same. apply upload_avatar_accounts.
Qed.

(** Whatever requests [GET /user], [POST /update-profile] and
    [POST /upload-avatar] serve, one after the other: the accounts that
    were stored keep their wallet, code and earnings, in place; the
    accounts added have earnings 0; and if no two accounts shared a wallet
    address (a referral code) before, none do afterwards. *)
Theorem profile_requests_keep_accounts (trim : string -> string)
    (rs : list profile_request) (db : list Profile.doc) :
  exists added : list User.doc,
    map Profile.account (profile_serve_all trim rs db) = map Profile.account db ++ added /\
    Forall (fun u => User.referralEarnings u = 0%float) added /\
    (NoDup (map User.walletAddress (map Profile.account db)) ->
     NoDup (map User.walletAddress (map Profile.account (profile_serve_all trim rs db)))) /\
    (NoDup (map User.referralCode (map Profile.account db)) ->
     NoDup (map User.referralCode (map Profile.account (profile_serve_all trim rs db)))).
Proof.
  revert db. induction rs as [| r rs IH]; intros db.
  - exists []. simpl. rewrite app_nil_r. auto.
  - destruct (profile_serve_step trim r db) as (a1 & E1 & F1 & W1 & C1).
    destruct (IH (profile_serve trim r db)) as (a2 & E2 & F2 & W2 & C2).
    exists (a1 ++ a2). unfold profile_serve_all in *. simpl fold_left.
    rewrite E2, E1, app_assoc. split; [reflexivity |].
    split; [apply Forall_app; auto |].
    rewrite E2, E1 in W2, C2. auto.
Qed.
